(** * ai_rag_backend: hybrid retrieval, reranking, context assembly,
      answer-or-fallback pipeline and history compressor

    Shallow embedding of

      - [rerank/rerank_chain.py]   : [get_rerank_scores]
      - [rag_chain/chain.py]       : [QARunnable.__init__], [QARunnable.invoke]
      - [services/chat_service.py] : [build_history_text_with_token_limit],
                                     [chat_service]
      - [api/chat_api.py]          : [chat]

    Conventions of the embedding:

      - a Python [str] is the list of its Unicode code points, [len] is the
        length of that list, and the character classes of [re] and [strip]
        are those of Unicode 14;
      - a dict or keyword map with literal keys is a [gmap string _], the
        set [seen] is a [gset], the session store is a [gmap] from session
        ids to message lists;
      - a score is a Python [float]: the double nearest to its decimal
        literal, held as the rational it is equal to, or [inf] for a literal
        beyond the range of doubles; scores are only compared ([>=],
        [sorted]) and copied;
      - code that calls a collaborator (language model, indexes, session
        store) runs in a state and exception monad; the collaborators are
        the fields of [Env], and the state records every call of the
        language model with its template and variables;
      - the chain that [services/chat_service.py] builds when it is imported
        is an argument [qa_chain] of the entry points: they exist only when
        [get_qa_chain] returned;
      - logging and the [verbose] prints are left out, and the session
        store does not fail. *)

From Stdlib Require Import QArith.
From stdpp Require Import gmap strings list sorting pretty.

Local Open Scope Z_scope.

(** ** Python strings *)

(** A Python [str] is a sequence of code points; [len] counts them. *)
Abbreviation str := (list N).

Definition len (s : str) : Z := Z.of_nat (length s).

(** Source literals are written as UTF-8 text and decoded to code points. *)
Fixpoint utf8_go (bs : list N) (acc : N) (k : nat) : str :=
  match bs with
  | [] => []
  | b :: bs' =>
      match k with
      | S k' =>
          let acc' := (acc * 64 + b mod 64)%N in
          match k' with
          | O => acc' :: utf8_go bs' 0%N O
          | S _ => utf8_go bs' acc' k'
          end
      | O =>
          if (b <? 128)%N then b :: utf8_go bs' 0%N O
          else if (b <? 224)%N then utf8_go bs' (b mod 32)%N 1%nat
          else if (b <? 240)%N then utf8_go bs' (b mod 16)%N 2%nat
          else utf8_go bs' (b mod 8)%N 3%nat
      end
  end.

Definition u (s : string) : str :=
  utf8_go (map Ascii.N_of_ascii (String.list_ascii_of_string s)) 0%N O.

Definition LF : N := 10%N.
Definition CR : N := 13%N.

(** [str.isspace] on one code point; also the class [\s] of [re] on [str]
    patterns. *)
Definition isspace (c : N) : bool :=
  ((9 <=? c) && (c <=? 13) || (28 <=? c) && (c <=? 32)
   || (c =? 133) || (c =? 160) || (c =? 5760)
   || (8192 <=? c) && (c <=? 8202)
   || (c =? 8232) || (c =? 8233) || (c =? 8239) || (c =? 8287)
   || (c =? 12288))%N.

(** First code points of the runs of decimal digits (category Nd, the class
    [\d] of [re] on [str] patterns) and the length of each run; inside a run
    the digit value is the offset modulo ten. *)
Definition decimal_runs : list (N * N) :=
  map (λ lo, (lo, 10%N))
    [48; 1632; 1776; 1984; 2406; 2534; 2662; 2790; 2918; 3046; 3174; 3302;
     3430; 3558; 3664; 3792; 3872; 4160; 4240; 6112; 6160; 6470; 6608; 6784;
     6800; 6992; 7088; 7232; 7248; 42528; 43216; 43264; 43472; 43504; 43600;
     44016; 65296; 66720; 68912; 69734; 69872; 69942; 70096; 70384; 70736;
     70864; 71248; 71360; 71472; 71904; 72016; 72784; 73040; 73120; 92768;
     92864; 93008]%N
  ++ [(120782, 50)]%N
  ++ map (λ lo, (lo, 10%N)) [123200; 123632; 125264; 130032]%N.

Fixpoint decimal_in (runs : list (N * N)) (c : N) : option N :=
  match runs with
  | [] => None
  | (lo, n) :: runs' =>
      if ((lo <=? c) && (c <? lo + n))%N then Some ((c - lo) mod 10)%N
      else decimal_in runs' c
  end.

(** [unicodedata.decimal], [None] outside category Nd. *)
Definition decimal (c : N) : option N := decimal_in decimal_runs c.

Definition isdecimal (c : N) : bool :=
  match decimal c with Some _ => true | None => false end.

Fixpoint lstrip (s : str) : str :=
  match s with
  | c :: s' => if isspace c then lstrip s' else s
  | [] => []
  end.

(** [s.strip()] *)
Definition strip (s : str) : str := reverse (lstrip (reverse (lstrip s))).

(** [sep.join(parts)] *)
Fixpoint join (sep : str) (parts : list str) : str :=
  match parts with
  | [] => []
  | [p] => p
  | p :: ps => p ++ sep ++ join sep ps
  end.

(** ** Python floats *)

(** A [float] that is not a NaN and not negative infinity: a double, held as
    the rational it is equal to, or [inf].  Scores enter the pipeline only
    through [float] of an unsigned decimal literal, the literal [0.0] and
    the threshold. *)
Inductive pyfloat :=
| Finite (q : Q)
| Inf.

(** [a <= b] on floats. *)
Definition fleb (a b : pyfloat) : bool :=
  match a, b with
  | _, Inf => true
  | Inf, Finite _ => false
  | Finite p, Finite q => Qle_bool p q
  end.

(** [a == b] on floats. *)
Definition feqb (a b : pyfloat) : bool := fleb a b && fleb b a.

(** [a / b] rounded to the nearest integer, ties to the even one. *)
Definition round_half_even (a b : Z) : Z :=
  let q := a / b in
  let r := a mod b in
  if 2 * r <? b then q
  else if b <? 2 * r then q + 1
  else if Z.even q then q else q + 1.

(** The double nearest to [num / den], ties to even: a significand [m] of at
    most 53 bits and an exponent [e] from -1074 (subnormal numbers) to 971;
    a value that rounds to [2 ^ 1024] or more gives [inf]. *)
Definition binary64 (num : N) (den : positive) : pyfloat :=
  let n := Z.of_N num in
  let d := Z.pos den in
  if n =? 0 then Finite 0
  else
    let e0 := Z.log2 n - Z.log2 d - 54 in
    let q0 := (n * 2 ^ Z.max 0 (- e0)) / (d * 2 ^ Z.max 0 e0) in
    let e := Z.max (e0 + (Z.log2 q0 - 52)) (-1074) in
    let m := round_half_even (n * 2 ^ Z.max 0 (- e)) (d * 2 ^ Z.max 0 e) in
    if (971 <? e) || ((e =? 971) && (m =? 2 ^ 53)) then Inf
    else Finite (Qred (m * 2 ^ Z.max 0 e # Z.to_pos (2 ^ Z.max 0 (- e)))).

(** [float(s)] for [s] an unsigned decimal literal [\d+(\.\d+)?]: the digits
    give a fraction [num / den], which is rounded to a double. *)
Fixpoint float_go (s : str) (num : N) (den : positive) (frac : bool)
    : N * positive :=
  match s with
  | [] => (num, den)
  | c :: s' =>
      match decimal c with
      | Some d =>
          float_go s' (num * 10 + d)%N (if frac then den * 10 else den)%positive
            frac
      | None => float_go s' num den true
      end
  end.

Definition float (s : str) : pyfloat :=
  let '(num, den) := float_go s 0%N 1%positive false in
  binary64 num den.

(** ** The fragment of [re] used by the scoring pattern *)

Inductive regex :=
| Lit (w : str)                 (* literal text *)
| Cls (p : N → bool)            (* one code point of a class *)
| Cat (r1 r2 : regex)           (* r1 r2 *)
| Opt (r : regex)               (* r? , greedy *)
| Star (p : N → bool)           (* [class]* , greedy *)
| Grp (n : nat) (r : regex).    (* capturing group number n *)

Definition Plus (p : N → bool) : regex := Cat (Cls p) (Star p).

(** Captured groups, most recent first. *)
Definition captures := list (nat * str).

Definition group (cs : captures) (n : nat) : str :=
  match list_find (λ c, c.1 = n) cs with
  | Some (_, (_, w)) => w
  | None => []
  end.

Fixpoint match_lit (w s : str) : option str :=
  match w, s with
  | [], _ => Some s
  | c :: w', x :: s' => if (x =? c)%N then match_lit w' s' else None
  | _ :: _, [] => None
  end.

(** Greedy repetition with backtracking: the longest run is tried first and
    given back one code point at a time while the rest fails. *)
Fixpoint match_star (p : N → bool) (s : str) (cs : captures)
    (k : str → captures → option captures) : option captures :=
  match s with
  | x :: s' =>
      if p x then
        match match_star p s' cs k with
        | Some r => Some r
        | None => k s cs
        end
      else k s cs
  | [] => k [] cs
  end.

(** Backtracking matcher in continuation-passing style: [k] matches what
    follows in the pattern. *)
Fixpoint rmatch (r : regex) (s : str) (cs : captures)
    (k : str → captures → option captures) : option captures :=
  match r with
  | Lit w => match match_lit w s with Some s' => k s' cs | None => None end
  | Cls p =>
      match s with
      | x :: s' => if p x then k s' cs else None
      | [] => None
      end
  | Cat r1 r2 => rmatch r1 s cs (λ s' cs', rmatch r2 s' cs' k)
  | Opt r1 =>
      match rmatch r1 s cs k with
      | Some r => Some r
      | None => k s cs
      end
  | Star p => match_star p s cs k
  | Grp n r1 =>
      rmatch r1 s cs
        (λ s' cs', k s' ((n, take (length s - length s') s) :: cs'))
  end.

(** [re.search]: the match at the leftmost position that has one. *)
Fixpoint re_search (r : regex) (s : str) : option captures :=
  match rmatch r s [] (λ _ cs, Some cs) with
  | Some cs => Some cs
  | None =>
      match s with
      | [] => None
      | _ :: s' => re_search r s'
      end
  end.

(** The pattern of [get_rerank_scores],
    [评分[:：]?\s*(\d+(?:\.\d+)?)\s*[\r\n]+理由[:：]?\s*(.+)]
    with [re.IGNORECASE | re.DOTALL]: no literal of the pattern is cased, and
    under DOTALL [.] is every code point. *)
Definition colon (c : N) : bool := ((c =? 58) || (c =? 65306))%N.
Definition crlf (c : N) : bool := ((c =? CR) || (c =? LF))%N.
Definition anychar (_ : N) : bool := true.

Definition score_pattern : regex :=
  Cat (Lit (u "评分")) (Cat (Opt (Cls colon)) (Cat (Star isspace)
  (Cat (Grp 1 (Cat (Plus isdecimal) (Opt (Cat (Lit (u ".")) (Plus isdecimal)))))
  (Cat (Star isspace) (Cat (Plus crlf)
  (Cat (Lit (u "理由")) (Cat (Opt (Cls colon)) (Cat (Star isspace)
  (Grp 2 (Plus anychar)))))))))).

(** ** Exceptions, external collaborators and the state they keep *)

Inductive exn :=
| ValueError (msg : str)
| HTTPException (status_code : Z) (detail : str)
| ZeroDivisionError (msg : str)
| ExternalError (msg : str).     (* raised by a collaborator *)

(** [str(e)]; for [HTTPException] the text is ["{status_code}: {detail}"]. *)
Definition exn_str (e : exn) : str :=
  match e with
  | ValueError msg => msg
  | HTTPException status_code detail =>
      u (pretty status_code) ++ u ": " ++ detail
  | ZeroDivisionError msg => msg
  | ExternalError msg => msg
  end.

Inductive outcome (A : Type) :=
| Ok (a : A)
| Raise (e : exn).
Arguments Ok {A} a.
Arguments Raise {A} e.

Record Document := {
  page_content : str;
  metadata : gmap string str
}.

(** The prompt templates of [prompts/]; only their identity matters here. *)
Inductive template := legal_prompt | fallback_prompt | rerank_prompt.

(** One [LLMChain.run]: the template and the variables bound to it. *)
Record llm_call := {
  call_prompt : template;
  call_inputs : gmap string str
}.

Inductive BaseMessage :=
| HumanMessage (content : str)
| AIMessage (content : str).

(** What the collaborators answer.  The language model may answer the same
    prompt differently each time, so its reply depends on the number of
    calls made before.  [bm25_retrieve corpus query] is
    [BM25Retriever.invoke(query)] of the retriever built on [corpus].
    [count_tokens] is [len(encoding.encode(text))] with the encoding [gpt2]
    of [tiktoken], whose [encode] raises [ValueError] on a text that holds a
    special token such as [<|endoftext|>]. *)
Record Env := {
  llm_generate : nat → template → gmap string str → outcome str;
  vectordb_documents : list str;               (* vectordb.get()['documents'] *)
  vectordb_metadatas : list (gmap string str); (* vectordb.get()['metadatas'] *)
  similarity_search : str → nat → outcome (list Document);
  bm25_retrieve : list Document → str → outcome (list Document);
  jieba_cut : str → list str;
  count_tokens : str → outcome nat
}.

Record world := {
  llm_log : list llm_call;                     (* calls made, oldest first *)
  histories : gmap str (list BaseMessage)      (* session store *)
}.

(** State and exception monad: a raised exception keeps the state reached. *)
Definition M (A : Type) : Type := world → outcome A * world.

Definition ret {A} (a : A) : M A := λ w, (Ok a, w).
Definition raise {A} (e : exn) : M A := λ w, (Raise e, w).
Definition bind {A B} (m : M A) (f : A → M B) : M B :=
  λ w, match m w with
       | (Ok a, w') => f a w'
       | (Raise e, w') => (Raise e, w')
       end.
(** [try: m  except Exception as e: ...] hands the outcome to the caller. *)
Definition try_except {A} (m : M A) : M (outcome A) :=
  λ w, let '(r, w') := m w in (Ok r, w').
Definition lift {A} (r : outcome A) : M A := λ w, (r, w).

Declare Scope py_scope.
Delimit Scope py_scope with py.
Notation "x <~ m ;; k" := (bind m (λ x, k))
  (at level 100, m at next level, right associativity) : py_scope.
Notation "m ;;; k" := (bind m (λ _, k))
  (at level 100, right associativity) : py_scope.
Local Open Scope py_scope.

(** A scored candidate [(score, text, rationale)]. *)
Abbreviation scored := (pyfloat * str * str)%type.

Section Pipeline.
Context (E : Env).

(** [LLMChain(llm, prompt).run(inputs)] *)
Definition chain_run (prompt : template) (inputs : gmap string str) : M str :=
  λ w, (llm_generate E (length (llm_log w)) prompt inputs,
        {| llm_log := llm_log w ++ [{| call_prompt := prompt;
                                       call_inputs := inputs |}];
           histories := histories w |}).

(** *** rerank/rerank_chain.py *)

Definition score (it : scored) : pyfloat := it.1.1.
Definition text (it : scored) : str := it.1.2.
Definition rationale (it : scored) : str := it.2.

Definition default_score : pyfloat := Finite 0.
Definition default_reason : str := u "未能识别评分格式".
Definition call_error_reason : str := u "模型调用异常".

Fixpoint rerank_loop (question : str) (documents : list str)
    (results : list scored) : M (list scored) :=
  match documents with
  | [] => ret results
  | doc :: rest =>
      r <~ try_except
             (response <~ chain_run rerank_prompt
                            {[ "question" := question; "context" := doc ]};;
              match re_search score_pattern response with
              | Some m => ret (float (group m 1), doc, strip (group m 2))
              | None => ret (default_score, doc, default_reason)
              end);;
      match r with
      | Ok item => rerank_loop question rest (results ++ [item])
      | Raise _ =>
          rerank_loop question rest
            (results ++ [(default_score, doc, call_error_reason)])
      end
  end.

Definition get_rerank_scores (question : str) (documents : list str)
    : M (list scored) :=
  rerank_loop question documents [].

(** *** rag_chain/chain.py *)

Record QARunnable := {
  bm25 : list Document;          (* corpus of the BM25 retriever *)
  threshold : pyfloat;
  max_context_length : Z
}.

(** The loop of [__init__] that builds the documents BM25 indexes. *)
Definition segmented_docs (texts : list str)
    (metadatas : list (gmap string str)) : list Document :=
  map (λ tm, {| page_content := join (u " ") (jieba_cut E tm.1);
                metadata := tm.2 |})
      (zip texts metadatas).

(** [BM25Retriever.from_documents(documents)]: the index of [rank_bm25]
    divides the number of tokens by the number of documents for the average
    document length, which raises on an empty list. *)
Definition BM25Retriever_from_documents (documents : list Document)
    : outcome (list Document) :=
  match documents with
  | [] => Raise (ZeroDivisionError (u "division by zero"))
  | _ :: _ => Ok documents
  end.

Definition QARunnable_init (threshold : pyfloat) : outcome QARunnable :=
  match BM25Retriever_from_documents
          (segmented_docs (vectordb_documents E) (vectordb_metadatas E)) with
  | Ok corpus =>
      Ok {| bm25 := corpus;
            threshold := threshold;
            max_context_length := 2000 |}
  | Raise e => Raise e
  end.

(** Step 3 of [invoke]: one turn of the merge loop, on [(seen, merged_docs)]. *)
Definition merge_step (acc : gset str * list Document) (doc : Document)
    : gset str * list Document :=
  if decide (page_content doc ∈ acc.1) then acc
  else ({[ page_content doc ]} ∪ acc.1, acc.2 ++ [doc]).

Definition merge_docs (docs : list Document) : list Document :=
  (foldl merge_step (∅, []) docs).2.

(** [sorted(items, key=lambda x: x[0], reverse=True)]: a stable sort, items
    of equal score keep their order. *)
Fixpoint insert_desc (x : scored) (l : list scored) : list scored :=
  match l with
  | [] => [x]
  | y :: l' =>
      if fleb (score y) (score x) then x :: l else y :: insert_desc x l'
  end.

Definition sorted_desc (l : list scored) : list scored :=
  foldr insert_desc [] l.

Definition filter_top (threshold : pyfloat) (reranked : list scored)
    : list scored :=
  take 3 (sorted_desc
            (List.filter (λ item, fleb threshold (score item)) reranked)).

Record SelectedDoc := {
  content : str;
  doc_score : pyfloat;
  reason : str;
  source_name : str;
  source_text : str
}.

(** [{doc.page_content: doc.metadata for doc in merged_docs}] *)
Definition content2metadata (merged_docs : list Document)
    : gmap str (gmap string str) :=
  foldl (λ m doc, <[ page_content doc := metadata doc ]> m) ∅ merged_docs.

(** [metadata.get(key, "") if metadata else ""] *)
Definition metadata_get (metadata : option (gmap string str)) (key : string)
    : str :=
  match metadata with
  | Some m => if decide (m = ∅) then [] else default [] (m !! key)
  | None => []
  end.

(** Step 5 of [invoke]: the loop over [filtered], on
    [(context, selected_docs)]. *)
Fixpoint assemble (max_len : Z) (c2m : gmap str (gmap string str))
    (filtered : list scored) (context : str) (selected_docs : list SelectedDoc)
    : str * list SelectedDoc :=
  match filtered with
  | [] => (context, selected_docs)
  | (sc, doc_text, why) :: rest =>
      if len context + len doc_text >? max_len then (context, selected_docs)
      else
        let metadata := c2m !! doc_text in
        assemble max_len c2m rest
          (context ++ doc_text ++ [LF; LF])
          (selected_docs ++
             [{| content := doc_text; doc_score := sc; reason := why;
                 source_name := metadata_get metadata "source_name";
                 source_text := metadata_get metadata "source_text" |}])
  end.

Record PipelineResult := {
  result : str;
  source_documents : list SelectedDoc;
  top_score : pyfloat;
  used_knowledge : bool;
  no_use_reason : option str
}.

Definition no_documents_reason : str := u "未检索到任何文档".
Definition no_relevant_reason : str :=
  u "无相关知识文档或该问题不需要引用文档".

Definition invoke (self : QARunnable) (inputs : gmap string str)
    : M PipelineResult :=
  let query : str := default [] (inputs !! "query") in
  let chat_history : str := default [] (inputs !! "chat_history") in
  vector_docs <~ lift (similarity_search E query 15);;
  bm25_hits <~ lift (bm25_retrieve E (bm25 self) query);;
  let bm25_docs := take 5 bm25_hits in
  let merged_docs := merge_docs (vector_docs ++ bm25_docs) in
  match merged_docs with
  | [] =>
      answer <~ chain_run fallback_prompt {[ "question" := query ]};;
      ret {| result := answer; source_documents := [];
             top_score := Finite 0; used_knowledge := false;
             no_use_reason := Some no_documents_reason |}
  | _ :: _ =>
      let raw_docs := map page_content merged_docs in
      reranked <~ get_rerank_scores query raw_docs;;
      let filtered := filter_top (threshold self) reranked in
      match filtered with
      | [] =>
          answer <~ chain_run fallback_prompt
                      {[ "question" := query;
                         "chat_history" := chat_history ]};;
          ret {| result := answer; source_documents := [];
                 top_score := Finite 0; used_knowledge := false;
                 no_use_reason := Some no_relevant_reason |}
      | _ :: _ =>
          let '(context, selected_docs) :=
            assemble (max_context_length self) (content2metadata merged_docs)
              filtered [] [] in
          let top : pyfloat :=
            match selected_docs with
            | d :: _ => doc_score d
            | [] => Finite 0
            end in
          response <~ chain_run legal_prompt
                        {[ "context" := context; "question" := query;
                           "chat_history" := chat_history ]};;
          ret {| result := response; source_documents := selected_docs;
                 top_score := top; used_knowledge := true;
                 no_use_reason := None |}
      end
  end.

(** [get_qa_chain(llm, embedding)], threshold left at its default. *)
Definition get_qa_chain : outcome QARunnable := QARunnable_init (Finite 70).

(** *** schemas/chat_schema.py, memory/redis_memory.py *)

Record Message := { role : str; msg_content : str }.
Record ChatRequest := { session_id : str; messages : list Message }.

(** A [SourceDocument] built from a selected document keeps its five
    entries, so the response carries the selected documents themselves. *)
Record ChatResponse := {
  answer : str;
  resp_used_knowledge : bool;
  resp_top_score : option pyfloat;
  resp_no_use_reason : option str;
  resp_source_documents : list SelectedDoc
}.

(** [get_message_history(session_id).messages] *)
Definition history_messages (sid : str) : M (list BaseMessage) :=
  λ w, (Ok (default [] (histories w !! sid)), w).

(** [get_message_history(session_id).add_message(m)] *)
Definition add_message (sid : str) (m : BaseMessage) : M unit :=
  λ w, (Ok tt,
        {| llm_log := llm_log w;
           histories :=
             <[ sid := default [] (histories w !! sid) ++ [m] ]> (histories w) |}).

(** *** services/chat_service.py *)

Definition MAX_HISTORY_MSGS : Z := 10.
Definition MAX_TOKENS : Z := 1500.

(** [messages[-max_msgs:]] with Python's slice rules: a positive [max_msgs]
    counts from the end, [-max_msgs] otherwise is a start index from the
    front. *)
Definition last_msgs {A} (messages : list A) (max_msgs : Z) : list A :=
  if 0 <? max_msgs then drop (length messages - Z.to_nat max_msgs) messages
  else drop (Z.to_nat (- max_msgs)) messages.

Definition format_line (msg : BaseMessage) : str :=
  match msg with
  | HumanMessage c => u "User" ++ u ": " ++ c ++ [LF]
  | AIMessage c => u "Assistant" ++ u ": " ++ c ++ [LF]
  end.

(** The loop of [build_history_text_with_token_limit], on
    [(history_text, total_tokens)]; [msgs] is already reversed.  An
    exception of [count_tokens] ends the loop and the function. *)
Fixpoint history_loop (max_tokens : Z) (msgs : list BaseMessage)
    (history_text : str) (total_tokens : Z) : outcome str :=
  match msgs with
  | [] => Ok history_text
  | msg :: rest =>
      let line := format_line msg in
      match count_tokens E line with
      | Ok line_tokens =>
          if total_tokens + Z.of_nat line_tokens >? max_tokens
          then Ok history_text
          else
            history_loop max_tokens rest (line ++ history_text)
              (total_tokens + Z.of_nat line_tokens)
      | Raise e => Raise e
      end
  end.

Definition build_history_text_with_token_limit (messages : list BaseMessage)
    (max_msgs max_tokens : Z) : outcome str :=
  history_loop max_tokens (reverse (last_msgs messages max_msgs)) [] 0.

(** The loop over [req.messages], shared by [chat_service] and [chat]; it
    returns [last_user_question]. *)
Fixpoint record_messages (sid : str) (msgs : list Message)
    (last_user_question : option str) : M (option str) :=
  match msgs with
  | [] => ret last_user_question
  | msg :: rest =>
      if decide (role msg = u "user") then
        add_message sid (HumanMessage (msg_content msg));;;
        record_messages sid rest (Some (msg_content msg))
      else if decide (role msg = u "assistant") then
        add_message sid (AIMessage (msg_content msg));;;
        record_messages sid rest last_user_question
      else record_messages sid rest last_user_question
  end.

(** [not last_user_question] *)
Definition missing (last_user_question : option str) : bool :=
  match last_user_question with
  | None | Some [] => true
  | Some (_ :: _) => false
  end.

(** From the history text to the response, shared by both entry points.
    [qa_chain] is the module-level [qa_chain = get_qa_chain(llm, embedding)]. *)
Definition answer_question (qa_chain : QARunnable) (sid : str)
    (question : str) : M ChatResponse :=
  msgs <~ history_messages sid;;
  history_text <~
    lift (build_history_text_with_token_limit msgs
            MAX_HISTORY_MSGS MAX_TOKENS);;
  r <~ invoke qa_chain
         {[ "query" := question; "chat_history" := history_text ]};;
  add_message sid (AIMessage (result r));;;
  ret {| answer := result r;
         resp_used_knowledge := used_knowledge r;
         resp_top_score := Some (top_score r);
         resp_no_use_reason := no_use_reason r;
         resp_source_documents := source_documents r |}.

Definition chat_service (qa_chain : QARunnable) (req : ChatRequest)
    : M ChatResponse :=
  last_user_question <~ record_messages (session_id req) (messages req) None;;
  if missing last_user_question then
    raise (ValueError (u "No user question provided."))
  else
    answer_question qa_chain (session_id req) (default [] last_user_question).

(** *** api/chat_api.py *)

(** The body of the [try] block of [chat]. *)
Definition chat_try (qa_chain : QARunnable) (req : ChatRequest)
    : M ChatResponse :=
  last_user_question <~ record_messages (session_id req) (messages req) None;;
  if missing last_user_question then
    raise (HTTPException 400 (u "No user question provided."))
  else
    answer_question qa_chain (session_id req) (default [] last_user_question).

Definition chat (qa_chain : QARunnable) (req : ChatRequest) : M ChatResponse :=
  r <~ try_except (chat_try qa_chain req);;
  match r with
  | Ok resp => ret resp
  | Raise e =>
      raise (HTTPException 500 (u "Internal error: " ++ exn_str e))
  end.

End Pipeline.

(** ** scripts/build_vector_db.py *)

(** [s.split("\n")]: the pieces between line feeds, empty ones included. *)
Fixpoint split_lines (s : str) : list str :=
  match s with
  | [] => [[]]
  | c :: s' =>
      if (c =? LF)%N then [] :: split_lines s'
      else
        match split_lines s' with
        | piece :: pieces => (c :: piece) :: pieces
        | [] => [[c]]
        end
  end.

(** The class [[一二三四五六七八九十百千0-9]] and the pattern
    [第[一二三四五六七八九十百千0-9]+条] of [extract_source_text]; group 0 is
    the whole match. *)
Definition numeral (c : N) : bool :=
  bool_decide (c ∈ u "一二三四五六七八九十百千") || ((48 <=? c) && (c <=? 57))%N.

Definition article_pattern : regex :=
  Grp 0 (Cat (Lit (u "第")) (Cat (Plus numeral) (Lit (u "条")))).

Definition extract_source_text (text : str) : str :=
  match re_search article_pattern text with
  | Some m => group m 0
  | None => []
  end.

(** [[para.strip() for para in full_text.strip().split("\n")
      if para.strip()]] *)
Definition entries (full_text : str) : list str :=
  strip <$> List.filter (λ para, negb (bool_decide (strip para = [])))
                        (split_lines (strip full_text)).

(** One of the [.txt] files found under the directory: its path, its name
    without directory and suffix, and what reading it as UTF-8 gives
    ([None] for a [UnicodeDecodeError]). *)
Record txt_file := {
  full_path : str;
  file_name : str;
  read_text : option str
}.

(** The body of the loop over [file_paths]. *)
Definition file_documents (f : txt_file) : list Document :=
  match read_text f with
  | Some full_text =>
      (λ entry,
         {| page_content := entry;
            metadata := {[ "source_file" := full_path f;
                           "source_name" := file_name f;
                           "source_text" := extract_source_text entry ]} |})
        <$> entries full_text
  | None => []
  end.

Definition load_txt_documents_with_metadata (files : list txt_file)
    : list Document :=
  foldl (λ documents f, documents ++ file_documents f) [] files.

(** ** Vocabulary of the statements *)

(** The reply to the [i]-th scoring call of a reranking that starts in
    state [w]. *)
Definition scoring_call (E : Env) (question : str) (w : world) (i : nat)
    (doc : str) : outcome str :=
  llm_generate E (length (llm_log w) + i)%nat rerank_prompt
    {[ "question" := question; "context" := doc ]}.

Definition rerank_call (question doc : str) : llm_call :=
  {| call_prompt := rerank_prompt;
     call_inputs := {[ "question" := question; "context" := doc ]} |}.

(** What one passage's entry is, case by case on the reply. *)
Definition entry_of (E : Env) (question : str) (w : world) (i : nat)
    (doc : str) (it : scored) : Prop :=
  text it = doc
  ∧ (∀ e, scoring_call E question w i doc = Raise e →
          it = (Finite 0, doc, call_error_reason))
  ∧ (∀ response, scoring_call E question w i doc = Ok response →
          re_search score_pattern response = None →
          it = (Finite 0, doc, default_reason))
  ∧ (∀ response m, scoring_call E question w i doc = Ok response →
          re_search score_pattern response = Some m →
          it = (float (group m 1), doc, strip (group m 2))).

(** The order of floats: every double is below [inf]. *)
Definition fle (a b : pyfloat) : Prop :=
  match a, b with
  | _, Inf => True
  | Inf, Finite _ => False
  | Finite p, Finite q => (p <= q)%Q
  end.

Definition flt (a b : pyfloat) : Prop :=
  match a, b with
  | Inf, _ => False
  | Finite _, Inf => True
  | Finite p, Finite q => (p < q)%Q
  end.

Declare Scope float_scope.
Delimit Scope float_scope with F.
Bind Scope float_scope with pyfloat.
Notation "a <= b" := (fle a b) : float_scope.
Notation "a < b" := (flt a b) : float_scope.

(** [desc x y]: [x] may stand before [y] in a list of non-increasing score. *)
Definition desc (x y : scored) : Prop := (score y <= score x)%F.

Definition query_of (inputs : gmap string str) : str :=
  default [] (inputs !! "query").
Definition chat_history_of (inputs : gmap string str) : str :=
  default [] (inputs !! "chat_history").

(** The calls of the language model made between two states. *)
Definition calls_between (w w' : world) : list llm_call :=
  drop (length (llm_log w)) (llm_log w').

(** The line of a turn as the specification words it,
    ["{Role}: {content}\n"] with the role names [User] and [Assistant]. *)
Definition role_name (msg : BaseMessage) : str :=
  match msg with
  | HumanMessage _ => u "User"
  | AIMessage _ => u "Assistant"
  end.

Definition content_of (msg : BaseMessage) : str :=
  match msg with
  | HumanMessage c | AIMessage c => c
  end.

Definition turn_line (msg : BaseMessage) : str :=
  role_name msg ++ u ": " ++ content_of msg ++ [LF].

(** The tokenizer returns on the line of every message of [msgs], with the
    count [tokens msg]. *)
Definition counted (E : Env) (tokens : BaseMessage → nat)
    (msgs : list BaseMessage) : Prop :=
  ∀ msg, msg ∈ msgs → count_tokens E (turn_line msg) = Ok (tokens msg).

(** The token counts of the lines of [msgs], each line counted on its own,
    summed. *)
Definition lines_tokens (tokens : BaseMessage → nat)
    (msgs : list BaseMessage) : Z :=
  Z.of_nat (sum_list_with tokens msgs).


(** The chain that [get_qa_chain] returns on a store that is not empty. *)
Definition qa_chain_of (E : Env) : QARunnable :=
  {| bm25 := segmented_docs E (vectordb_documents E) (vectordb_metadatas E);
     threshold := Finite 70;
     max_context_length := 2000 |}.

(** What a pattern of the [re] fragment can consume. *)
Inductive matches : regex → str → Prop :=
| matches_lit w : matches (Lit w) w
| matches_cls p c : p c = true → matches (Cls p) [c]
| matches_cat r1 r2 w1 w2 :
    matches r1 w1 → matches r2 w2 → matches (Cat r1 r2) (w1 ++ w2)
| matches_opt r w : matches r w → matches (Opt r) w
| matches_opt_skip r : matches (Opt r) []
| matches_star p w : Forall (λ c, p c = true) w → matches (Star p) w
| matches_grp n r w : matches r w → matches (Grp n r) w.

(** The entry of the session store for one session. *)
Definition session (w : world) (sid : str) : list BaseMessage :=
  default [] (histories w !! sid).

(** The message a request turn is stored as, if it is stored. *)
Definition stored_message (msg : Message) : option BaseMessage :=
  if decide (role msg = u "user") then Some (HumanMessage (msg_content msg))
  else if decide (role msg = u "assistant")
       then Some (AIMessage (msg_content msg))
       else None.

(** The selected document that context assembly makes of a filtered
    candidate. *)
Definition selected_of (c2m : gmap str (gmap string str)) (it : scored)
    : SelectedDoc :=
  {| content := text it; doc_score := score it; reason := rationale it;
     source_name := metadata_get (c2m !! text it) "source_name";
     source_text := metadata_get (c2m !! text it) "source_text" |}.

(** ** Sample collaborators *)

Definition w0 : world := {| llm_log := []; histories := ∅ |}.

(** [w] occurs in [s]. *)
Fixpoint occurs (w s : str) : bool :=
  match match_lit w s with
  | Some _ => true
  | None =>
      match s with
      | [] => false
      | _ :: s' => occurs w s'
      end
  end.

(** A tokenizer with one token per code point, which refuses a text that
    holds the special token [<|endoftext|>] as the encoder does. *)
Definition code_points (t : str) : outcome nat :=
  if occurs (u "<|endoftext|>") t
  then Raise (ValueError (u "disallowed special token"))
  else Ok (length t).

(** The pieces that the splitting pattern of the encoding [gpt2],
    ['s|'t|'re|'ve|'m|'ll|'d| ?\p{L}+| ?\p{N}+| ?[^\s\p{L}\p{N}]+|\s+(?!\S)|\s+],
    cuts an ASCII text into.  The encoder merges byte pairs inside a piece
    only, so a text has at least as many tokens as pieces, and exactly as
    many when every piece is a token of the vocabulary, as are [User], [:],
    [ a], one line feed and two line feeds. *)
Definition ascii_letter (c : N) : bool :=
  ((65 <=? c) && (c <=? 90) || (97 <=? c) && (c <=? 122))%N.
Definition ascii_digit (c : N) : bool := ((48 <=? c) && (c <=? 57))%N.
Definition white_space (c : N) : bool :=
  ((9 <=? c) && (c <=? 13) || (c =? 32))%N.
Definition other_char (c : N) : bool :=
  negb (white_space c || ascii_letter c || ascii_digit c).

Fixpoint skip (p : N → bool) (s : str) : str :=
  match s with
  | c :: s' => if p c then skip p s' else s
  | [] => []
  end.

Fixpoint contraction (suffixes : list str) (s : str) : option str :=
  match suffixes with
  | [] => None
  | w :: suffixes' =>
      match match_lit w s with
      | Some rest => Some rest
      | None => contraction suffixes' s
      end
  end.

(** [ ?p+]: what is left of [s] after an optional space and a run of [p]. *)
Definition opt_space_run (p : N → bool) (s : str) : option str :=
  let body := match s with 32%N :: s' => s' | _ => s end in
  match body with
  | c :: _ => if p c then Some (skip p body) else None
  | [] => None
  end.

(** What is left of [s] after its first piece.  A run of white space that
    is followed by another character gives up its last character, unless
    it has only one. *)
Definition piece_rest (s : str) : str :=
  match contraction
          [u "'s"; u "'t"; u "'re"; u "'ve"; u "'m"; u "'ll"; u "'d"] s with
  | Some rest => rest
  | None =>
  match opt_space_run ascii_letter s with
  | Some rest => rest
  | None =>
  match opt_space_run ascii_digit s with
  | Some rest => rest
  | None =>
  match opt_space_run other_char s with
  | Some rest => rest
  | None =>
      let rest := skip white_space s in
      match rest with
      | [] => []
      | _ :: _ =>
          if (2 <=? length s - length rest)%nat
          then drop (length s - length rest - 1) s
          else rest
      end
  end end end end.

Fixpoint pieces_go (fuel : nat) (s : str) : nat :=
  match fuel, s with
  | S fuel', _ :: _ => S (pieces_go fuel' (piece_rest s))
  | _, _ => O
  end.

Definition gpt2_pieces (s : str) : outcome nat := Ok (pieces_go (length s) s).

(** A segmenter that keeps a run of ASCII letters and digits together and
    cuts everywhere else. *)
Fixpoint sample_cut (t : str) : list str :=
  match t with
  | [] => []
  | c :: t' =>
      let pieces := sample_cut t' in
      match t', pieces with
      | c' :: _, piece :: pieces' =>
          if (ascii_letter c || ascii_digit c)
             && (ascii_letter c' || ascii_digit c')
          then (c :: piece) :: pieces'
          else [c] :: pieces
      | _, _ => [c] :: pieces
      end
  end.

(** A model that answers the scoring calls with [replies] (by call number)
    and every other prompt with ["answer"]; the store holds [stored], the
    semantic index returns [vector_hits], and the lexical index returns the
    first four documents of its corpus. *)
Definition sample_env_with (tokenizer : str → outcome nat)
    (stored vector_hits : list Document) (replies : nat → outcome str) : Env :=
  {| llm_generate := λ n prompt _,
       match prompt with
       | rerank_prompt => replies n
       | _ => Ok (u "answer")
       end;
     vectordb_documents := page_content <$> stored;
     vectordb_metadatas := metadata <$> stored;
     similarity_search := λ _ _, Ok vector_hits;
     bm25_retrieve := λ corpus _, Ok (take 4 corpus);
     jieba_cut := sample_cut;
     count_tokens := tokenizer |}.

Definition sample_env := sample_env_with code_points.

Definition scored_reply (digits : string) : outcome str :=
  Ok (u "评分: " ++ u digits ++ [LF] ++ u "理由: ok").

Definition law_doc (t : str) : Document :=
  {| page_content := t; metadata := {[ "source_name" := u "law" ]} |}.

(** Three merged candidates scored 85, 40 and 72. *)
Definition E_three : Env :=
  sample_env [law_doc (u "a"); law_doc (u "b"); law_doc (u "c")]
             [law_doc (u "a"); law_doc (u "b"); law_doc (u "a")]
             (λ n, match n with
                   | O => scored_reply "85"
                   | 1%nat => scored_reply "40"
                   | _ => scored_reply "72"
                   end).

(** All candidates below the threshold. *)
Definition E_low : Env :=
  sample_env [law_doc (u "a"); law_doc (u "b")] [law_doc (u "a")]
             (λ _, scored_reply "40").

(** An empty store. *)
Definition E_none : Env := sample_env [] [] (λ _, scored_reply "90").

(** One relevant passage of [n] code points. *)
Definition E_passage (n : nat) : Env :=
  sample_env [law_doc (replicate n 97%N)] [law_doc (replicate n 97%N)]
             (λ _, scored_reply "90").

(** The first scoring call raises, the second reply has no score. *)
Definition E_faulty : Env :=
  sample_env [law_doc (u "a"); law_doc (u "b"); law_doc (u "c")]
             [law_doc (u "a"); law_doc (u "b"); law_doc (u "c")]
             (λ n, match n with
                   | O => Raise (ExternalError (u "timeout"))
                   | 1%nat => Ok (u "no idea")
                   | _ => scored_reply "72.5"
                   end).

(** The semantic index is unreachable. *)
Definition E_down : Env :=
  {| llm_generate := λ _ _ _, Ok (u "answer");
     vectordb_documents := [u "a"];
     vectordb_metadatas := [∅];
     similarity_search := λ _ _, Raise (ExternalError (u "index unreachable"));
     bm25_retrieve := λ corpus _, Ok (take 4 corpus);
     jieba_cut := sample_cut;
     count_tokens := code_points |}.

(** The scorer answers, the generation templates raise. *)
Definition E_mute : Env :=
  {| llm_generate := λ _ prompt _,
       match prompt with
       | rerank_prompt => scored_reply "90"
       | _ => Raise (ExternalError (u "model unreachable"))
       end;
     vectordb_documents := [u "a"];
     vectordb_metadatas := [{[ "source_name" := u "law" ]}];
     similarity_search := λ _ _, Ok [law_doc (u "a")];
     bm25_retrieve := λ corpus _, Ok (take 4 corpus);
     jieba_cut := sample_cut;
     count_tokens := code_points |}.

(** The sample model with the pieces of the encoding [gpt2] for tokens. *)
Definition E_gpt2 : Env :=
  sample_env_with gpt2_pieces [law_doc (u "a")] [law_doc (u "a")]
                  (λ _, scored_reply "40").

(** ** The relevance scorer *)

Section Rerank.
Context (E : Env) (question : str).

Lemma rerank_loop_run (documents : list str) :
  ∀ (results : list scored) (w : world),
  ∃ (rs : list scored) (w' : world),
    rerank_loop E question documents results w = (Ok (results ++ rs), w')
    ∧ length rs = length documents
    ∧ (∀ i doc, documents !! i = Some doc →
         ∃ it, rs !! i = Some it ∧ entry_of E question w i doc it)
    ∧ llm_log w' = llm_log w ++ map (rerank_call question) documents
    ∧ histories w' = histories w.
Proof.
  induction documents as [|doc rest IH]; intros results w; simpl.
  - exists [], w. rewrite !app_nil_r. repeat split; try done.
  - unfold bind at 1, try_except, bind at 1, chain_run.
    set (w1 := {| llm_log := _; histories := _ |}).
    assert (Hw1 : ∀ i d, scoring_call E question w1 i d
                         = scoring_call E question w (S i) d).
    { intros i d. unfold scoring_call, w1. simpl.
      rewrite length_app. simpl. f_equal. lia. }
    assert (Hcall : llm_generate E (length (llm_log w)) rerank_prompt
                      {[ "question" := question; "context" := doc ]}
                    = scoring_call E question w 0 doc).
    { unfold scoring_call. by rewrite Nat.add_0_r. }
    rewrite Hcall.
    assert (Hstep : ∀ it, entry_of E question w 0 doc it →
      ∃ rs w', rerank_loop E question rest (results ++ [it]) w1
               = (Ok (results ++ rs), w')
        ∧ length rs = S (length rest)
        ∧ (∀ i d, (doc :: rest) !! i = Some d →
             ∃ it', rs !! i = Some it' ∧ entry_of E question w i d it')
        ∧ llm_log w' = llm_log w ++ rerank_call question doc
                                    :: map (rerank_call question) rest
        ∧ histories w' = histories w).
    { intros it Hit.
      destruct (IH (results ++ [it]) w1) as (rs & w' & Hrun & Hlen & Hent & Hlog & Hh).
      exists (it :: rs), w'. rewrite Hrun, <- app_assoc. simpl.
      split; [done|]. split; [by rewrite Hlen|]. split; [|split].
      - intros [|i] d Hd; simpl in *.
        + injection Hd as <-. by exists it.
        + destruct (Hent i d Hd) as (it' & Hit' & Hspec).
          exists it'. split; [done|].
          unfold entry_of in *. by setoid_rewrite <- Hw1.
      - rewrite Hlog. unfold w1. simpl. by rewrite <- app_assoc.
      - by rewrite Hh. }
    destruct (scoring_call E question w 0 doc) as [response|e] eqn:Hr.
    + simpl. destruct (re_search score_pattern response) as [m|] eqn:Hm;
        unfold ret; apply Hstep; unfold entry_of;
        (split; [done|]); repeat split; intros; congruence.
    + apply Hstep. unfold entry_of.
      (split; [done|]); repeat split; intros; congruence.
Qed.

Lemma get_rerank_scores_run (documents : list str) (w : world) :
  ∃ (results : list scored) (w' : world),
    get_rerank_scores E question documents w = (Ok results, w')
    ∧ length results = length documents
    ∧ (∀ i doc, documents !! i = Some doc →
         ∃ it, results !! i = Some it ∧ entry_of E question w i doc it)
    ∧ llm_log w' = llm_log w ++ map (rerank_call question) documents
    ∧ histories w' = histories w.
Proof. apply (rerank_loop_run documents [] w). Qed.

Lemma entries_texts (documents : list str) (results : list scored) (w : world) :
  length results = length documents →
  (∀ i doc, documents !! i = Some doc →
     ∃ it, results !! i = Some it ∧ entry_of E question w i doc it) →
  map text results = documents.
Proof.
  intros Hlen Hent. apply list_eq. intros i.
  rewrite list_lookup_fmap.
  destruct (documents !! i) as [doc|] eqn:Hd.
  - destruct (Hent i doc Hd) as (it & -> & Htext & _). simpl. by rewrite Htext.
  - apply lookup_ge_None in Hd.
    rewrite (proj2 (lookup_ge_None results i)); [done | lia].
Qed.

End Rerank.

(** C5. For every question and every list of N candidate texts, whatever
    the language model answers or raises on each call, the relevance scorer
    returns (it does not raise) exactly N entries, and the text of the i-th
    entry is the i-th input passage. *)
Theorem C5_rerank_same_length_same_order
    (E : Env) (question : str) (documents : list str) (w : world) :
  ∃ (results : list scored) (w' : world),
    get_rerank_scores E question documents w = (Ok results, w')
    ∧ length results = length documents
    ∧ map text results = documents.
Proof.
  destruct (get_rerank_scores_run E question documents w)
    as (results & w' & Hrun & Hlen & Hent & _).
  exists results, w'. eauto using entries_texts.
Qed.

(** C6. In a scoring batch, a passage whose reply does not match the
    score/rationale pattern gets the entry (0.0, text, [default_reason]),
    the source's "未能识别评分格式" (format not recognized); a passage whose
    model call raises gets (0.0, text, [call_error_reason]), the source's
    "模型调用异常" (invocation error); and the batch still returns one entry
    for every passage. *)
Theorem C6_rerank_defaults
    (E : Env) (question : str) (documents : list str) (w : world) :
  ∃ (results : list scored) (w' : world),
    get_rerank_scores E question documents w = (Ok results, w')
    ∧ length results = length documents
    ∧ ∀ i doc, documents !! i = Some doc →
        match scoring_call E question w i doc with
        | Raise _ => results !! i = Some (Finite 0, doc, call_error_reason)
        | Ok response =>
            re_search score_pattern response = None →
            results !! i = Some (Finite 0, doc, default_reason)
        end.
Proof.
  destruct (get_rerank_scores_run E question documents w)
    as (results & w' & Hrun & Hlen & Hent & _).
  exists results, w'. do 2 (split; [done|]).
  intros i doc Hd. destruct (Hent i doc Hd) as (it & Hit & _ & Hraise & Hbad & _).
  destruct (scoring_call E question w i doc) as [response|e] eqn:Hcall.
  - intros Hnone. rewrite Hit. f_equal. exact (Hbad response eq_refl Hnone).
  - rewrite Hit. f_equal. exact (Hraise e eq_refl).
Qed.

(** ** The hybrid retriever's merge *)

Section Merge.
Implicit Types (docs : list Document) (d : Document).

Lemma merge_seen docs t :
  t ∈ (foldl merge_step (∅, []) docs).1
  ↔ t ∈ page_content <$> (foldl merge_step (∅, []) docs).2.
Proof.
  induction docs as [|d docs IH] using rev_ind; simpl.
  - set_solver.
  - rewrite foldl_snoc. unfold merge_step at 1 3.
    case_decide as Hin; [done|]. simpl.
    rewrite fmap_app, elem_of_app, elem_of_union, IH, elem_of_singleton.
    simpl. rewrite list_elem_of_singleton. tauto.
Qed.

(** The merge loop, one input document at a time. *)
Lemma merge_docs_snoc docs d :
  merge_docs (docs ++ [d]) =
    if decide (page_content d ∈ page_content <$> merge_docs docs)
    then merge_docs docs else merge_docs docs ++ [d].
Proof.
  unfold merge_docs. rewrite foldl_snoc. unfold merge_step at 1.
  pose proof (merge_seen docs (page_content d)) as Hseen.
  repeat case_decide; tauto.
Qed.

Lemma merge_docs_nil : merge_docs [] = [].
Proof. reflexivity. Qed.

Lemma merge_docs_NoDup docs : NoDup (page_content <$> merge_docs docs).
Proof.
  induction docs as [|d docs IH] using rev_ind; [constructor|].
  rewrite merge_docs_snoc. case_decide as Hin; [done|].
  rewrite fmap_app. apply NoDup_app. split; [done|]. split.
  - intros t Ht Hd. apply list_elem_of_singleton in Hd. by subst.
  - apply NoDup_singleton.
Qed.

Lemma merge_docs_sublist docs : merge_docs docs `sublist_of` docs.
Proof.
  induction docs as [|d docs IH] using rev_ind; [done|].
  rewrite merge_docs_snoc. case_decide.
  - by apply sublist_inserts_r.
  - by apply sublist_app.
Qed.

Lemma merge_docs_covers docs d :
  d ∈ docs → page_content d ∈ page_content <$> merge_docs docs.
Proof.
  induction docs as [|d' docs IH] using rev_ind; [by intros ?%elem_of_nil|].
  rewrite elem_of_app, list_elem_of_singleton, merge_docs_snoc.
  intros [Hd | ->]; case_decide as Hin; try (by apply IH); try done.
  - rewrite fmap_app, elem_of_app. left. by apply IH.
  - rewrite fmap_app, elem_of_app. right. set_solver.
Qed.

Lemma merge_docs_first docs d :
  d ∈ merge_docs docs →
  ∃ j, list_find (λ x, page_content x = page_content d) docs = Some (j, d).
Proof.
  induction docs as [|d' docs IH] using rev_ind; [by intros ?%elem_of_nil|].
  rewrite merge_docs_snoc.
  assert (Hold : d ∈ merge_docs docs →
    ∃ j, list_find (λ x, page_content x = page_content d) (docs ++ [d'])
         = Some (j, d)).
  { intros [j Hj]%IH. exists j. apply list_find_app_Some. by left. }
  case_decide as Hin; [done|].
  rewrite elem_of_app, list_elem_of_singleton. intros [Hd | ->]; [by apply Hold|].
  exists (length docs). apply list_find_app_Some. right.
  split; [lia|]. split.
  - apply list_find_None, Forall_forall. intros x Hx Heq.
    apply Hin. rewrite <- Heq. by apply merge_docs_covers.
  - rewrite Nat.sub_diag. simpl. by case_decide.
Qed.

Lemma merge_docs_app docs1 docs2 :
  ∃ kept, merge_docs (docs1 ++ docs2) = merge_docs docs1 ++ kept
          ∧ kept `sublist_of` docs2.
Proof.
  induction docs2 as [|d docs2 (kept & Hm & Hk)] using rev_ind.
  - exists []. by rewrite !app_nil_r.
  - rewrite app_assoc, merge_docs_snoc, Hm. case_decide.
    + exists kept. split; [done|]. by apply sublist_inserts_r.
    + exists (kept ++ [d]). rewrite app_assoc. split; [done|].
      by apply sublist_app.
Qed.

End Merge.

(** C8. The merge of the semantic results with the lexical ones holds no
    two entries of the same text; it keeps the order of retrieval, semantic
    results first; every retrieved text is in it; and each entry is the
    first retrieved document of its text. *)
Theorem C8_merge_first_occurrence_wins (vector_docs bm25_docs : list Document) :
  let docs := vector_docs ++ bm25_docs in
  let merged := merge_docs docs in
  NoDup (page_content <$> merged)
  ∧ (∀ d, d ∈ docs → page_content d ∈ page_content <$> merged)
  ∧ merged `sublist_of` docs
  ∧ (∃ kept, merged = merge_docs vector_docs ++ kept
             ∧ kept `sublist_of` bm25_docs)
  ∧ (∀ d, d ∈ merged →
       ∃ j, list_find (λ x, page_content x = page_content d) docs
            = Some (j, d)).
Proof.
  intros docs merged. unfold merged, docs.
  split; [apply merge_docs_NoDup|].
  split; [apply merge_docs_covers|].
  split; [apply merge_docs_sublist|].
  split; [apply merge_docs_app|].
  apply merge_docs_first.
Qed.

(** ** FILTERING: threshold, descending sort, top three *)

Section Filtering.
Implicit Types (x y : scored) (l : list scored).

Lemma elem_of_take_1 {A} (n : nat) (k : list A) (a : A) :
  a ∈ take n k → a ∈ k.
Proof.
  intros (i & Hi & _)%elem_of_take. by eapply list_elem_of_lookup_2.
Qed.

Lemma fleb_iff (a b : pyfloat) : fleb a b = true ↔ (a <= b)%F.
Proof.
  destruct a as [p|], b as [q|]; simpl; try done.
  apply Qle_bool_iff.
Qed.

Lemma fleb_false_iff (a b : pyfloat) : fleb a b = false ↔ (b < a)%F.
Proof.
  destruct a as [p|], b as [q|]; simpl; try done.
  split.
  - intros Hf. apply Qnot_le_lt. intros Hle%Qle_bool_iff. congruence.
  - intros Hlt%Qlt_not_le. destruct (Qle_bool p q) eqn:Hle; [|done].
    by apply Qle_bool_iff in Hle.
Qed.

Lemma flt_not_le (a b : pyfloat) : (a < b)%F ↔ ¬ (b <= a)%F.
Proof.
  rewrite <- fleb_false_iff, <- fleb_iff. by destruct (fleb b a).
Qed.

Lemma flt_le_weak (a b : pyfloat) : (a < b)%F → (a <= b)%F.
Proof.
  destruct a as [p|], b as [q|]; simpl; try done. apply Qlt_le_weak.
Qed.

Lemma fle_refl (a : pyfloat) : (a <= a)%F.
Proof. destruct a as [p|]; simpl; [apply Qle_refl | done]. Qed.

Lemma fle_trans (a b c : pyfloat) : (a <= b)%F → (b <= c)%F → (a <= c)%F.
Proof.
  destruct a as [p|], b as [q|], c as [r|]; simpl; try done.
  apply Qle_trans.
Qed.

Lemma fleb_false (a b : pyfloat) : fleb a b = false → (b <= a)%F.
Proof. intros Hf. by apply flt_le_weak, fleb_false_iff. Qed.

Lemma insert_desc_perm x l : insert_desc x l ≡ₚ x :: l.
Proof.
  induction l as [|y l IH]; simpl; [done|].
  destruct (fleb (score y) (score x)); [done|].
  rewrite IH. apply Permutation_swap.
Qed.

Lemma sorted_desc_perm l : sorted_desc l ≡ₚ l.
Proof.
  induction l as [|x l IH]; simpl; [done|].
  by rewrite insert_desc_perm, IH.
Qed.

Lemma insert_desc_sorted x l :
  StronglySorted desc l → StronglySorted desc (insert_desc x l).
Proof.
  induction 1 as [|y l Hl IH Hy]; simpl.
  - repeat constructor.
  - destruct (fleb (score y) (score x)) eqn:Hyx.
    + apply fleb_iff in Hyx. constructor; [by constructor|].
      constructor; [done|]. eapply Forall_impl; [exact Hy|].
      intros z Hz. unfold desc in *. by eapply fle_trans.
    + apply fleb_false in Hyx. constructor; [done|].
      rewrite insert_desc_perm. by constructor.
Qed.

Lemma sorted_desc_sorted l : StronglySorted desc (sorted_desc l).
Proof.
  induction l as [|x l IH]; simpl; [constructor|].
  by apply insert_desc_sorted.
Qed.

Lemma StronglySorted_take_desc (n : nat) l :
  StronglySorted desc l → StronglySorted desc (take n l).
Proof.
  intros Hl. revert n. induction Hl as [|y l Hl IH Hy]; intros [|n]; simpl;
    try constructor; [apply IH|].
  eapply Forall_forall. intros z Hz%elem_of_take_1.
  by eapply Forall_forall in Hy.
Qed.

Lemma StronglySorted_lookup_desc l (i j : nat) x y :
  StronglySorted desc l → (i <= j)%nat →
  l !! i = Some x → l !! j = Some y → desc x y.
Proof.
  intros Hl. revert i j. induction Hl as [|z l Hl IH Hz]; intros i j Hij Hi Hj.
  - by rewrite lookup_nil in Hi.
  - destruct i as [|i], j as [|j]; simpl in *; simplify_eq.
    + apply fle_refl.
    + eapply Forall_forall in Hz; [exact Hz|]. by eapply list_elem_of_lookup_2.
    + lia.
    + eapply (IH i j); [lia|done..].
Qed.

Lemma filter_top_length (threshold : pyfloat) l :
  (length (filter_top threshold l) <= 3)%nat.
Proof. unfold filter_top. rewrite length_take. lia. Qed.

Lemma filter_top_elem (threshold : pyfloat) l x :
  x ∈ filter_top threshold l → x ∈ l ∧ (threshold <= score x)%F.
Proof.
  unfold filter_top. intros Hx%elem_of_take_1.
  rewrite sorted_desc_perm in Hx.
  apply list_elem_of_In, filter_In in Hx as [Hx Hs].
  split; [by apply list_elem_of_In | by apply fleb_iff].
Qed.

Lemma filter_top_sorted (threshold : pyfloat) l :
  StronglySorted desc (filter_top threshold l).
Proof. apply StronglySorted_take_desc, sorted_desc_sorted. Qed.

(** Nothing that reached the threshold is lost unless three are kept. *)
Lemma filter_top_nil (threshold : pyfloat) l :
  filter_top threshold l = [] →
  Forall (λ x, ¬ (threshold <= score x)%F) l.
Proof.
  unfold filter_top. intros Hnil. apply Forall_forall. intros x Hx Hle.
  assert (Hin : x ∈ sorted_desc
                  (List.filter (λ item, fleb threshold (score item)) l)).
  { rewrite sorted_desc_perm. apply list_elem_of_In, filter_In.
    split; [by apply list_elem_of_In | by apply fleb_iff]. }
  destruct (sorted_desc _) as [|y l']; [by apply elem_of_nil in Hin|done].
Qed.

End Filtering.

(** ** The branches of [invoke] *)

(** Once both retrievals have returned, [invoke] continues in one of three
    ways, by the merged candidates and by what FILTERING leaves. *)
Section Invoke.
Context (E : Env) (self : QARunnable) (inputs : gmap string str).
Context (vector_docs hits : list Document).
Hypothesis Hsem : similarity_search E (query_of inputs) 15 = Ok vector_docs.
Hypothesis Hlex : bm25_retrieve E (bm25 self) (query_of inputs) = Ok hits.

Lemma invoke_no_documents (w : world) :
  merge_docs (vector_docs ++ take 5 hits) = [] →
  invoke E self inputs w =
    (answer <~ chain_run E fallback_prompt
                 {[ "question" := query_of inputs ]};;
     ret {| result := answer; source_documents := []; top_score := Finite 0;
            used_knowledge := false;
            no_use_reason := Some no_documents_reason |}) w.
Proof.
  intros Hnil. unfold invoke. cbv zeta. fold (query_of inputs).
  unfold bind at 1, lift. rewrite Hsem.
  unfold bind at 1. rewrite Hlex, Hnil. reflexivity.
Qed.

Lemma invoke_no_relevant (w w1 : world) (reranked : list scored) :
  merge_docs (vector_docs ++ take 5 hits) ≠ [] →
  get_rerank_scores E (query_of inputs)
    (map page_content (merge_docs (vector_docs ++ take 5 hits))) w
    = (Ok reranked, w1) →
  filter_top (threshold self) reranked = [] →
  invoke E self inputs w =
    (answer <~ chain_run E fallback_prompt
                 {[ "question" := query_of inputs;
                    "chat_history" := chat_history_of inputs ]};;
     ret {| result := answer; source_documents := []; top_score := Finite 0;
            used_knowledge := false;
            no_use_reason := Some no_relevant_reason |}) w1.
Proof.
  intros Hne Hrun Hnil. unfold invoke. cbv zeta.
  fold (query_of inputs) (chat_history_of inputs).
  unfold bind at 1, lift. rewrite Hsem.
  unfold bind at 1. rewrite Hlex.
  destruct (merge_docs (vector_docs ++ take 5 hits)) as [|d ds] eqn:Hm; [done|].
  unfold bind at 1. rewrite Hrun, Hnil. reflexivity.
Qed.

Lemma invoke_answering (w w1 : world) (reranked : list scored) :
  merge_docs (vector_docs ++ take 5 hits) ≠ [] →
  get_rerank_scores E (query_of inputs)
    (map page_content (merge_docs (vector_docs ++ take 5 hits))) w
    = (Ok reranked, w1) →
  filter_top (threshold self) reranked ≠ [] →
  invoke E self inputs w =
    (let assembled :=
       assemble (max_context_length self)
         (content2metadata (merge_docs (vector_docs ++ take 5 hits)))
         (filter_top (threshold self) reranked) [] [] in
     response <~ chain_run E legal_prompt
                   {[ "context" := assembled.1;
                      "question" := query_of inputs;
                      "chat_history" := chat_history_of inputs ]};;
     ret {| result := response; source_documents := assembled.2;
            top_score := match assembled.2 with
                         | d :: _ => doc_score d
                         | [] => Finite 0
                         end;
            used_knowledge := true; no_use_reason := None |}) w1.
Proof.
  intros Hne Hrun Hnn. unfold invoke. cbv zeta.
  fold (query_of inputs) (chat_history_of inputs).
  unfold bind at 1, lift. rewrite Hsem.
  unfold bind at 1. rewrite Hlex.
  destruct (merge_docs (vector_docs ++ take 5 hits)) as [|d ds] eqn:Hm; [done|].
  unfold bind at 1. rewrite Hrun.
  destruct (filter_top (threshold self) reranked) as [|it its] eqn:Hf; [done|].
  destruct (assemble _ _ _ _ _) as [context selected_docs]. reflexivity.
Qed.

End Invoke.

(** ** Context assembly *)

Section Assemble.
Context (max_len : Z) (c2m : gmap str (gmap string str)).

Lemma len_app (s t : str) : len (s ++ t) = len s + len t.
Proof. unfold len. rewrite length_app. lia. Qed.

(** The loop takes a prefix of [filtered], whole passages each followed by a
    blank line, and stops at the first passage that does not fit; the guard
    does not count the blank line that follows a passage. *)
Lemma assemble_run (filtered : list scored) :
  ∀ (context : str) (selected_docs : list SelectedDoc),
  ∃ n : nat,
    let taken := take n filtered in
    let out := assemble max_len c2m filtered context selected_docs in
    out.1 = context ++ concat (map (λ it, text it ++ [LF; LF]) taken)
    ∧ map content out.2 = map content selected_docs ++ map text taken
    ∧ map doc_score out.2 = map doc_score selected_docs ++ map score taken
    ∧ (∀ it, filtered !! n = Some it → len out.1 + len (text it) > max_len)
    ∧ (n ≠ 0%nat → len out.1 <= max_len + 2).
Proof.
  induction filtered as [|[[sc doc_text] why] rest IH]; intros context selected_docs.
  - exists 0%nat. simpl. rewrite !app_nil_r. repeat split; try done.
  - simpl. destruct (Z.gtb_spec (len context + len doc_text) max_len)
      as [Hguard|Hguard].
    + exists 0%nat. simpl. rewrite !app_nil_r.
      repeat split; try done.
      intros it [= <-]. unfold text. simpl. lia.
    + destruct (IH (context ++ doc_text ++ [LF; LF])
                   (selected_docs ++
                      [{| content := doc_text; doc_score := sc; reason := why;
                          source_name :=
                            metadata_get (c2m !! doc_text) "source_name";
                          source_text :=
                            metadata_get (c2m !! doc_text) "source_text" |}]))
        as (n & Hctx & Hcont & Hsc & Hstop & Hbound).
      exists (S n). cbv zeta in *. simpl.
      split; [rewrite Hctx; by rewrite <- !app_assoc|].
      split; [rewrite Hcont, map_app; by rewrite <- app_assoc|].
      split; [rewrite Hsc, map_app; by rewrite <- app_assoc|].
      split; [exact Hstop|].
      intros _. destruct n as [|n]; [|by apply Hbound].
      rewrite Hctx. simpl. rewrite app_nil_r, !len_app.
      change (len [LF; LF]) with 2. lia.
Qed.

End Assemble.

(** ** Claims on the answer-or-fallback pipeline *)

Lemma calls_between_app (w w' : world) (calls : list llm_call) :
  llm_log w' = llm_log w ++ calls → calls_between w w' = calls.
Proof. unfold calls_between. intros ->. by rewrite drop_app_length. Qed.

Lemma calls_between_snoc (w w1 : world) (calls : list llm_call)
    (c : llm_call) (h : gmap str (list BaseMessage)) :
  llm_log w1 = llm_log w ++ calls →
  calls_between w {| llm_log := llm_log w1 ++ [c]; histories := h |}
    = calls ++ [c].
Proof.
  intros Hlog. apply calls_between_app. simpl. by rewrite Hlog, <- app_assoc.
Qed.

Lemma chain_run_log (E : Env) (prompt : template) (inputs : gmap string str)
    {A} (k : str → A) (w : world) :
  (a <~ chain_run E prompt inputs;; ret (k a)) w =
    (match llm_generate E (length (llm_log w)) prompt inputs with
     | Ok a => Ok (k a)
     | Raise e => Raise e
     end,
     {| llm_log := llm_log w ++ [{| call_prompt := prompt;
                                    call_inputs := inputs |}];
        histories := histories w |}).
Proof.
  unfold bind, chain_run, ret.
  by destruct (llm_generate E (length (llm_log w)) prompt inputs).
Qed.

Lemma rerank_calls_not_grounded (question : str) (documents : list str) c :
  c ∈ map (rerank_call question) documents → call_prompt c ≠ legal_prompt.
Proof. intros (doc & -> & _)%list_elem_of_fmap. done. Qed.

(** C7. After FILTERING at most three scored candidates remain, each one a
    scored candidate whose score is at least the threshold, in order of
    non-increasing score; and when none remains, [invoke] continues as the
    fallback: the no-knowledge template bound to the question and the chat
    history, and a result with [used_knowledge = false], [top_score = 0.0],
    no source documents and the reason [no_relevant_reason], the source's
    "无相关知识文档或该问题不需要引用文档" (no relevant knowledge found). *)
Theorem C7_filtering_top_three
    (E : Env) (self : QARunnable) (inputs : gmap string str)
    (vector_docs hits : list Document) (w : world) :
  let merged := merge_docs (vector_docs ++ take 5 hits) in
  similarity_search E (query_of inputs) 15 = Ok vector_docs →
  bm25_retrieve E (bm25 self) (query_of inputs) = Ok hits →
  merged ≠ [] →
  ∃ (reranked : list scored) (w1 : world),
    get_rerank_scores E (query_of inputs) (map page_content merged) w
      = (Ok reranked, w1)
    ∧ let filtered := filter_top (threshold self) reranked in
      (length filtered <= 3)%nat
      ∧ (∀ it, it ∈ filtered →
           it ∈ reranked ∧ (threshold self <= score it)%F)
      ∧ (∀ (i j : nat) a b, (i <= j)%nat →
           filtered !! i = Some a → filtered !! j = Some b →
           (score b <= score a)%F)
      ∧ (filtered = [] →
           invoke E self inputs w =
             (answer <~ chain_run E fallback_prompt
                          {[ "question" := query_of inputs;
                             "chat_history" := chat_history_of inputs ]};;
              ret {| result := answer; source_documents := [];
                     top_score := Finite 0; used_knowledge := false;
                     no_use_reason := Some no_relevant_reason |})
             w1).
Proof.
  intros merged Hsem Hlex Hne.
  destruct (get_rerank_scores_run E (query_of inputs)
              (map page_content merged) w)
    as (reranked & w1 & Hrun & _).
  exists reranked, w1. split; [done|]. cbv zeta.
  split; [apply filter_top_length|].
  split; [apply filter_top_elem|].
  split.
  - intros i j a b Hij Ha Hb.
    exact (StronglySorted_lookup_desc _ i j a b
             (filter_top_sorted _ _) Hij Ha Hb).
  - intros Hnil.
    exact (invoke_no_relevant E self inputs vector_docs hits Hsem Hlex
             w w1 reranked Hne Hrun Hnil).
Qed.

(** C2, as the code has it. The knowledge-grounded call (template bound to
    context, question and chat history) is made exactly when a scored
    candidate survived FILTERING, whether or not context assembly selected
    a document; it is then the last call, and when it returns the result
    has [used_knowledge = true], the selected documents as sources, and as
    [top_score] the score of the first selected document, which no filtered
    candidate exceeds, or 0.0 when no document was selected. *)
Theorem C2_grounded_call_after_filtering
    (E : Env) (self : QARunnable) (inputs : gmap string str)
    (vector_docs hits : list Document) (w : world) :
  let merged := merge_docs (vector_docs ++ take 5 hits) in
  similarity_search E (query_of inputs) 15 = Ok vector_docs →
  bm25_retrieve E (bm25 self) (query_of inputs) = Ok hits →
  ∃ (reranked : list scored) (w1 : world)
    (o : outcome PipelineResult) (w' : world),
    get_rerank_scores E (query_of inputs) (map page_content merged) w
      = (Ok reranked, w1)
    ∧ invoke E self inputs w = (o, w')
    ∧ let filtered := filter_top (threshold self) reranked in
      let assembled :=
        assemble (max_context_length self) (content2metadata merged)
          filtered [] [] in
      let grounded :=
        {| call_prompt := legal_prompt;
           call_inputs := {[ "context" := assembled.1;
                             "question" := query_of inputs;
                             "chat_history" := chat_history_of inputs ]} |} in
      ((∃ c, c ∈ calls_between w w' ∧ call_prompt c = legal_prompt)
         ↔ filtered ≠ [])
      ∧ (filtered ≠ [] →
           calls_between w w' =
             map (rerank_call (query_of inputs)) (map page_content merged)
             ++ [grounded]
           ∧ o = match llm_generate E (length (llm_log w1)) legal_prompt
                         (call_inputs grounded) with
                 | Ok response =>
                     Ok {| result := response;
                           source_documents := assembled.2;
                           top_score := match assembled.2 with
                                        | d :: _ => doc_score d
                                        | [] => Finite 0
                                        end;
                           used_knowledge := true;
                           no_use_reason := None |}
                 | Raise e => Raise e
                 end
           ∧ (∀ d ds it, assembled.2 = d :: ds → it ∈ filtered →
                (score it <= doc_score d)%F)).
Proof.
  intros merged Hsem Hlex. subst merged.
  destruct (get_rerank_scores_run E (query_of inputs)
              (map page_content (merge_docs (vector_docs ++ take 5 hits))) w)
    as (reranked & w1 & Hrun & Hlen & _ & Hlog & _).
  exists reranked, w1.
  destruct (filter_top (threshold self) reranked) as [|it0 its] eqn:Hf.
  - (* a fallback branch: no grounded call *)
    destruct (decide (merge_docs (vector_docs ++ take 5 hits) = []))
      as [Hm|Hm].
    + eexists _, _. split; [done|]. split.
      { rewrite (invoke_no_documents E self inputs vector_docs hits
                   Hsem Hlex w Hm).
        apply chain_run_log. }
      cbv zeta. split; [|done]. split; [|done].
      intros (c & Hc & Hp).
      rewrite (calls_between_snoc w w [] _ _ (eq_sym (app_nil_r _))) in Hc.
      apply list_elem_of_singleton in Hc. by subst.
    + eexists _, _. split; [done|]. split.
      { rewrite (invoke_no_relevant E self inputs vector_docs hits Hsem Hlex
                   w w1 reranked Hm Hrun Hf).
        apply chain_run_log. }
      cbv zeta. split; [|done]. split; [|done].
      intros (c & Hc & Hp).
      rewrite (calls_between_snoc w w1 _ _ _ Hlog) in Hc.
      apply elem_of_app in Hc as [Hc|Hc].
      * by apply rerank_calls_not_grounded in Hc.
      * apply list_elem_of_singleton in Hc. by subst.
  - (* the answering branch *)
    assert (Hm : merge_docs (vector_docs ++ take 5 hits) ≠ []).
    { intros Hm. rewrite Hm in Hlen. destruct reranked; [|done].
      by vm_compute in Hf. }
    assert (Hnn : filter_top (threshold self) reranked ≠ [])
      by (by rewrite Hf).
    eexists _, _. split; [done|]. split.
    { rewrite (invoke_answering E self inputs vector_docs hits Hsem Hlex
                 w w1 reranked Hm Hrun Hnn).
      cbv zeta. apply chain_run_log. }
    cbv zeta. rewrite <- Hf.
    rewrite (calls_between_snoc w w1 _ _ _ Hlog).
    split.
    { split; [done|]. intros _. eexists. split.
      - apply elem_of_app. right. by apply list_elem_of_singleton.
      - reflexivity. }
    intros _. split; [reflexivity|]. split; [reflexivity|].
    intros d ds it Hsel Hit.
    destruct (assemble_run (max_context_length self)
                (content2metadata (merge_docs (vector_docs ++ take 5 hits)))
                (filter_top (threshold self) reranked) [] [])
      as (n & _ & _ & Hscores & _).
    cbv zeta in Hscores. rewrite Hsel in Hscores. simpl in Hscores.
    destruct n as [|n]; [by rewrite take_0 in Hscores|].
    rewrite Hf in Hscores, Hit. simpl in Hscores. injection Hscores as -> _.
    apply list_elem_of_lookup_1 in Hit as [j Hj].
    pose proof (filter_top_sorted (threshold self) reranked) as Hsorted.
    rewrite Hf in Hsorted.
    exact (StronglySorted_lookup_desc _ 0 j it0 it Hsorted (Nat.le_0_l j)
             eq_refl Hj).
Qed.

(** C6 on a batch whose first call raises and whose second reply has no
    score. *)
Lemma C6_rerank_defaults_sample :
  ∃ results,
    (get_rerank_scores E_faulty (u "q") [u "a"; u "b"; u "c"] w0).1 = Ok results
    ∧ results !! 0%nat = Some (Finite 0, u "a", call_error_reason)
    ∧ results !! 1%nat = Some (Finite 0, u "b", default_reason).
Proof.
  destruct (C6_rerank_defaults E_faulty (u "q") [u "a"; u "b"; u "c"] w0)
    as (results & w' & Hrun & _ & Hdef).
  exists results. rewrite Hrun. split; [reflexivity|]. split.
  - exact (Hdef 0%nat (u "a") eq_refl).
  - apply (Hdef 1%nat (u "b") eq_refl). vm_compute. reflexivity.
Defined.

(** C7 where every candidate scores 40: the fallback result. *)
Lemma C7_filtering_top_three_sample :
  (invoke E_low (qa_chain_of E_low) {[ "query" := u "q" ]} w0).1
  = Ok {| result := u "answer"; source_documents := []; top_score := Finite 0;
          used_knowledge := false;
          no_use_reason := Some no_relevant_reason |}.
Proof.
  assert (Hlex : bm25_retrieve E_low (bm25 (qa_chain_of E_low))
                   (query_of {[ "query" := u "q" ]})
                 = Ok [law_doc (u "a"); law_doc (u "b")])
    by (vm_compute; reflexivity).
  assert (Hne : merge_docs ([law_doc (u "a")]
                            ++ take 5 [law_doc (u "a"); law_doc (u "b")]) ≠ [])
    by (by vm_compute).
  destruct (C7_filtering_top_three E_low (qa_chain_of E_low)
              {[ "query" := u "q" ]} [law_doc (u "a")]
              [law_doc (u "a"); law_doc (u "b")] w0 eq_refl Hlex Hne)
    as (reranked & w1 & Hrun & _ & _ & _ & Hfallback).
  vm_compute in Hrun. injection Hrun as <- <-.
  rewrite Hfallback; [|by vm_compute]. vm_compute. reflexivity.
Defined.

(** C2 on the three candidates scored 85, 40 and 72. *)
Lemma C2_grounded_call_sample :
  ∃ r w',
    invoke E_three (qa_chain_of E_three) {[ "query" := u "q" ]} w0 = (Ok r, w')
    ∧ used_knowledge r = true
    ∧ top_score r = Finite 85
    ∧ map doc_score (source_documents r) = [Finite 85; Finite 72].
Proof.
  assert (Hlex : bm25_retrieve E_three (bm25 (qa_chain_of E_three))
                   (query_of {[ "query" := u "q" ]})
                 = Ok [law_doc (u "a"); law_doc (u "b"); law_doc (u "c")])
    by (vm_compute; reflexivity).
  destruct (C2_grounded_call_after_filtering E_three (qa_chain_of E_three)
              {[ "query" := u "q" ]}
              [law_doc (u "a"); law_doc (u "b"); law_doc (u "a")]
              [law_doc (u "a"); law_doc (u "b"); law_doc (u "c")] w0
              eq_refl Hlex)
    as (reranked & w1 & o & w' & Hrun & Hinv & _ & Hans).
  vm_compute in Hrun. injection Hrun as <- <-.
  destruct Hans as (_ & Ho & _); [by vm_compute|].
  vm_compute in Ho. subst o.
  eexists _, w'. split; [exact Hinv|]. repeat split; reflexivity.
Defined.

(** The claim C2 fails on a store of one relevant passage of 2001 code
    points: nothing is selected, and the knowledge-grounded call is made
    all the same, with an empty context, [used_knowledge = true] and
    [top_score = 0.0]. *)
Lemma C2_counterexample_nothing_selected :
  get_qa_chain (E_passage 2001) = Ok (qa_chain_of (E_passage 2001))
  ∧ invoke (E_passage 2001) (qa_chain_of (E_passage 2001))
      {[ "query" := u "q" ]} w0
    = (Ok {| result := u "answer"; source_documents := [];
             top_score := Finite 0; used_knowledge := true;
             no_use_reason := None |},
       {| llm_log :=
            [rerank_call (u "q") (replicate 2001 97%N);
             {| call_prompt := legal_prompt;
                call_inputs := {[ "context" := []; "question" := u "q";
                                  "chat_history" := [] ]} |}];
          histories := ∅ |}).
Proof. split; vm_compute; reflexivity. Qed.

(** C1 fails on a store of one relevant passage of 2000 code points: the
    passage fits the guard, and the context handed to the model is the
    passage and the blank line after it, 2002 code points for a budget of
    2000. *)
Lemma C1_context_over_budget :
  get_qa_chain (E_passage 2000) = Ok (qa_chain_of (E_passage 2000))
  ∧ invoke (E_passage 2000) (qa_chain_of (E_passage 2000))
      {[ "query" := u "q" ]} w0
    = (Ok {| result := u "answer";
             source_documents :=
               [{| content := replicate 2000 97%N; doc_score := Finite 90;
                   reason := u "ok"; source_name := u "law";
                   source_text := [] |}];
             top_score := Finite 90; used_knowledge := true;
             no_use_reason := None |},
       {| llm_log :=
            [rerank_call (u "q") (replicate 2000 97%N);
             {| call_prompt := legal_prompt;
                call_inputs :=
                  {[ "context" := replicate 2000 97%N ++ [LF; LF];
                     "question" := u "q"; "chat_history" := [] ]} |}];
          histories := ∅ |})
  ∧ len (replicate 2000 97%N ++ [LF; LF]) = 2002
  ∧ max_context_length (qa_chain_of (E_passage 2000)) = 2000.
Proof. split; [|split; [|split]]; vm_compute; reflexivity. Qed.





(** The run of that sample: two scoring calls, then the no-knowledge
    template with the question and the chat history. *)
Example fallback_run_sample :
  invoke E_low (qa_chain_of E_low)
    {[ "query" := u "q"; "chat_history" := u "User: hi" ++ [LF] ]} w0
  = (Ok {| result := u "answer"; source_documents := [];
           top_score := Finite 0; used_knowledge := false;
           no_use_reason := Some no_relevant_reason |},
     {| llm_log :=
          [rerank_call (u "q") (u "a"); rerank_call (u "q") (u "b");
           {| call_prompt := fallback_prompt;
              call_inputs := {[ "question" := u "q";
                                "chat_history" := u "User: hi" ++ [LF] ]} |}];
        histories := ∅ |}).
Proof. vm_compute. reflexivity. Qed.

(** An empty store: the chain cannot be built. *)
Example get_qa_chain_empty_store :
  get_qa_chain E_none = Raise (ZeroDivisionError (u "division by zero")).
Proof. vm_compute. reflexivity. Qed.

(** ** The entry points without a user question *)

Section NoQuestion.
Context (E : Env) (qa_chain : QARunnable).

Lemma record_messages_no_user (sid : str) (msgs : list Message) :
  Forall (λ m, role m ≠ u "user") msgs →
  ∀ (last_user_question : option str) (w : world),
  ∃ w', record_messages sid msgs last_user_question w
        = (Ok last_user_question, w').
Proof.
  induction 1 as [|msg msgs Hrole _ IH]; intros last_user_question w; simpl.
  - by exists w.
  - destruct (decide (role msg = u "user")) as [|_]; [done|].
    destruct (decide (role msg = u "assistant")) as [_|_]; [|apply IH].
    unfold bind at 1, add_message. apply IH.
Qed.

(** Without a user turn [chat_service] raises [ValueError]. *)
Lemma chat_service_no_user (req : ChatRequest) (w : world) :
  Forall (λ m, role m ≠ u "user") (messages req) →
  ∃ w', chat_service E qa_chain req w
        = (Raise (ValueError (u "No user question provided.")), w').
Proof.
  intros Hno.
  destruct (record_messages_no_user (session_id req) (messages req) Hno None w)
    as [w' Hrec].
  exists w'. unfold chat_service, bind. by rewrite Hrec.
Qed.

(** Without a user turn [chat] raises the 400 inside its own [try], and
    the [except Exception] clause turns it into a 500. *)
Lemma chat_no_user (req : ChatRequest) (w : world) :
  Forall (λ m, role m ≠ u "user") (messages req) →
  ∃ w', chat E qa_chain req w
        = (Raise (HTTPException 500
                    (u "Internal error: " ++
                     exn_str (HTTPException 400
                                (u "No user question provided.")))), w').
Proof.
  intros Hno.
  destruct (record_messages_no_user (session_id req) (messages req) Hno None w)
    as [w' Hrec].
  exists w'. unfold chat, bind at 1, try_except, chat_try, bind at 1.
  by rewrite Hrec.
Qed.

End NoQuestion.

(** C4 fails at the HTTP boundary: for a batch with no user turn the
    service function raises [ValueError], but the handler's own 400 is
    caught by its [except Exception] and reaches the caller as a 500. *)
Lemma C4_missing_question_surfaces_as_500 :
  let req := {| session_id := u "s";
                messages := [{| role := u "assistant";
                                msg_content := u "hello" |}] |} in
  let w' := {| llm_log := [];
               histories := {[ u "s" := [AIMessage (u "hello")] ]} |} in
  get_qa_chain E_low = Ok (qa_chain_of E_low)
  ∧ chat_service E_low (qa_chain_of E_low) req w0
    = (Raise (ValueError (u "No user question provided.")), w')
  ∧ chat E_low (qa_chain_of E_low) req w0
    = (Raise (HTTPException 500
                (u "Internal error: 400: No user question provided.")), w').
Proof. split; [|split]; vm_compute; reflexivity. Qed.

(** ** The history compressor *)

Section History.
Context (E : Env) (tokens : BaseMessage → nat).

(** The line the loop builds is the line of the specification. *)
Lemma format_line_turn_line (msg : BaseMessage) :
  format_line msg = turn_line msg.
Proof. destruct msg; reflexivity. Qed.

Lemma lines_tokens_app (l k : list BaseMessage) :
  lines_tokens tokens (l ++ k) = lines_tokens tokens l + lines_tokens tokens k.
Proof. unfold lines_tokens. rewrite sum_list_with_app. lia. Qed.

Lemma lines_tokens_cons (msg : BaseMessage) (l : list BaseMessage) :
  lines_tokens tokens (msg :: l)
  = Z.of_nat (tokens msg) + lines_tokens tokens l.
Proof. unfold lines_tokens. simpl. lia. Qed.

Lemma lines_tokens_reverse (l : list BaseMessage) :
  lines_tokens tokens (reverse l) = lines_tokens tokens l.
Proof.
  unfold lines_tokens. by rewrite sum_list_with_reverse.
Qed.

Lemma lines_tokens_nonneg (msgs : list BaseMessage) :
  0 <= lines_tokens tokens msgs.
Proof. unfold lines_tokens. lia. Qed.

Lemma counted_reverse (msgs : list BaseMessage) :
  counted E tokens msgs → counted E tokens (reverse msgs).
Proof. intros Hc msg Hin. apply Hc. by apply elem_of_reverse. Qed.

(** While the tokenizer returns, the loop takes the lines of a prefix of
    [msgs] and stops at the first line that does not fit. *)
Lemma history_loop_run (max_tokens : Z) (msgs : list BaseMessage) :
  counted E tokens msgs →
  ∀ (history_text : str) (total_tokens : Z),
  ∃ taken rest,
    msgs = taken ++ rest
    ∧ history_loop E max_tokens msgs history_text total_tokens
      = Ok (concat (turn_line <$> reverse taken) ++ history_text)
    ∧ (total_tokens <= max_tokens →
       total_tokens + lines_tokens tokens taken <= max_tokens)
    ∧ (∀ msg rest', rest = msg :: rest' →
       total_tokens + lines_tokens tokens taken + Z.of_nat (tokens msg)
       > max_tokens).
Proof.
  induction msgs as [|msg msgs IH]; intros Hc history_text total_tokens.
  - exists [], []. simpl. repeat split; [unfold lines_tokens; simpl; lia | done].
  - cbn [history_loop]. rewrite format_line_turn_line.
    rewrite (Hc msg) by left.
    destruct (Z.gtb_spec (total_tokens + Z.of_nat (tokens msg)) max_tokens)
      as [Hover|Hfits].
    + exists [], (msg :: msgs). simpl.
      repeat split; [unfold lines_tokens; simpl; lia|].
      intros ? ? [= <- <-]. unfold lines_tokens. simpl. lia.
    + destruct (IH (λ m Hm, Hc m (list_elem_of_further _ _ _ Hm))
                   (turn_line msg ++ history_text)
                   (total_tokens + Z.of_nat (tokens msg)))
        as (taken & rest & -> & Hrun & Hsum & Hstop).
      exists (msg :: taken), rest. split; [done|]. split.
      { rewrite Hrun, reverse_cons, fmap_app, concat_app. simpl.
        by rewrite app_nil_r, <- app_assoc. }
      rewrite lines_tokens_cons. split; [lia|].
      intros m rest' Hrest. specialize (Hstop m rest' Hrest). lia.
Qed.

(** An exception of the tokenizer on a line that the loop reaches ends the
    loop with that exception. *)
Lemma history_loop_raise (max_tokens : Z) (taken : list BaseMessage)
    (bad : BaseMessage) (rest : list BaseMessage) (e : exn) :
  counted E tokens taken →
  count_tokens E (turn_line bad) = Raise e →
  ∀ (history_text : str) (total_tokens : Z),
    total_tokens + lines_tokens tokens taken <= max_tokens →
    history_loop E max_tokens (taken ++ bad :: rest) history_text total_tokens
    = Raise e.
Proof.
  intros Hc Hbad.
  induction taken as [|msg taken IH]; intros history_text total_tokens Hfits.
  - cbn [app history_loop]. by rewrite format_line_turn_line, Hbad.
  - cbn [app history_loop]. rewrite format_line_turn_line.
    rewrite (Hc msg) by left. rewrite lines_tokens_cons in Hfits.
    pose proof (lines_tokens_nonneg taken).
    destruct (Z.gtb_spec (total_tokens + Z.of_nat (tokens msg)) max_tokens)
      as [Hover|_]; [lia|].
    apply IH; [|lia]. intros m Hm. apply Hc. by right.
Qed.

(** The window is cut into the lines left out and the lines returned. *)
Lemma build_history_run (messages : list BaseMessage)
    (max_msgs max_tokens : Z) :
  0 <= max_tokens →
  counted E tokens (last_msgs messages max_msgs) →
  ∃ older included,
    last_msgs messages max_msgs = older ++ included
    ∧ build_history_text_with_token_limit E messages max_msgs max_tokens
      = Ok (concat (turn_line <$> included))
    ∧ lines_tokens tokens included <= max_tokens
    ∧ (∀ older' msg, older = older' ++ [msg] →
         lines_tokens tokens included + Z.of_nat (tokens msg) > max_tokens).
Proof.
  intros Htokens Hc. unfold build_history_text_with_token_limit.
  destruct (history_loop_run max_tokens (reverse (last_msgs messages max_msgs))
              (counted_reverse _ Hc) [] 0)
    as (taken & rest & Hsplit & Hrun & Hsum & Hstop).
  exists (reverse rest), (reverse taken).
  split; [by rewrite <- reverse_app, <- Hsplit, reverse_involutive|].
  split; [by rewrite Hrun, app_nil_r|].
  rewrite lines_tokens_reverse. split; [lia|].
  intros older' msg Holder.
  assert (Hrest : rest = msg :: reverse older').
  { rewrite <- (reverse_involutive rest), Holder, reverse_app. done. }
  specialize (Hstop msg (reverse older') Hrest). lia.
Qed.

End History.

(** C9, as the code has it.  For a positive [max_msgs] and a [max_tokens]
    that is not negative (the defaults are 10 and 1500), and a tokenizer
    that returns on the lines of the last [max_msgs] messages, the
    compressor looks at these messages only and returns the lines
    ["{Role}: {content}\n"] of a suffix of them, oldest first; the token
    counts of these lines, each line counted on its own, sum to at most
    [max_tokens]; and the message just before the suffix, when there is
    one, is left out because the count of its line would take the sum over
    [max_tokens]. *)
Theorem C9_history_is_recent_suffix_within_line_budget
    (E : Env) (tokens : BaseMessage → nat) (messages : list BaseMessage)
    (max_msgs max_tokens : Z) :
  0 < max_msgs → 0 <= max_tokens →
  let considered := drop (length messages - Z.to_nat max_msgs) messages in
  (∀ msg, msg ∈ considered →
     count_tokens E (turn_line msg) = Ok (tokens msg)) →
  Z.of_nat (length considered) <= max_msgs
  ∧ ∃ older included,
      considered = older ++ included
      ∧ build_history_text_with_token_limit E messages max_msgs max_tokens
        = Ok (concat (turn_line <$> included))
      ∧ lines_tokens tokens included <= max_tokens
      ∧ (∀ older' msg, older = older' ++ [msg] →
           lines_tokens tokens included + Z.of_nat (tokens msg)
           > max_tokens).
Proof.
  intros Hmsgs Htokens considered Hc. split.
  { unfold considered. rewrite length_drop. lia. }
  assert (Hw : last_msgs messages max_msgs = considered).
  { unfold last_msgs. by destruct (Z.ltb_spec 0 max_msgs) as [_|?]; [|lia]. }
  rewrite <- Hw in Hc |- *.
  exact (build_history_run E tokens messages max_msgs max_tokens Htokens Hc).
Qed.

(** C9 at the defaults, on a two-message history and one token per code
    point. *)
Lemma C9_history_sample :
  let messages := [HumanMessage (u "hi"); AIMessage (u "hello")] in
  let tokens := λ msg, length (turn_line msg) in
  let considered := drop (length messages - Z.to_nat MAX_HISTORY_MSGS) messages in
  Z.of_nat (length considered) <= MAX_HISTORY_MSGS
  ∧ ∃ older included,
      considered = older ++ included
      ∧ build_history_text_with_token_limit E_low messages
          MAX_HISTORY_MSGS MAX_TOKENS
        = Ok (concat (turn_line <$> included))
      ∧ lines_tokens tokens included <= MAX_TOKENS
      ∧ (∀ older' msg, older = older' ++ [msg] →
           lines_tokens tokens included + Z.of_nat (tokens msg)
           > MAX_TOKENS).
Proof.
  apply (C9_history_is_recent_suffix_within_line_budget E_low
           (λ msg, length (turn_line msg))
           [HumanMessage (u "hi"); AIMessage (u "hello")]
           MAX_HISTORY_MSGS MAX_TOKENS).
  - unfold MAX_HISTORY_MSGS. lia.
  - unfold MAX_TOKENS. lia.
  - intros msg Hin. vm_compute in Hin.
    apply elem_of_cons in Hin as [->|Hin]; [vm_compute; reflexivity|].
    apply elem_of_cons in Hin as [->|Hin]; [vm_compute; reflexivity|].
    by apply elem_of_nil in Hin.
Defined.

(** The claim C9 fails on the token count of the returned text.  With the
    pieces of the encoding [gpt2] for tokens, the line of a turn whose
    content ends with a line feed ends with two line feeds, which are one
    token at the end of a text and two tokens before another line.  Ten
    such turns of 150 tokens each fit the default budget of 1500 line by
    line; the text returned has 1509 tokens. *)
Lemma C9_counterexample_text_over_budget :
  let turn := HumanMessage (u "a" ++ concat (replicate 146 (u " a")) ++ [LF]) in
  let messages := replicate 10 turn in
  count_tokens E_gpt2 (turn_line turn) = Ok 150%nat
  ∧ build_history_text_with_token_limit E_gpt2 messages
      MAX_HISTORY_MSGS MAX_TOKENS
    = Ok (concat (turn_line <$> messages))
  ∧ count_tokens E_gpt2 (concat (turn_line <$> messages)) = Ok 1509%nat
  ∧ MAX_TOKENS < 1509.
Proof. repeat split; vm_compute; reflexivity. Qed.

(** The same on two short turns and a budget of 8 tokens: the lines
    ["User: a\n\n"] and ["User: b\n"] have 4 tokens each, the returned text
    ["User: a\n\nUser: b\n"] has 9. *)
Example history_text_over_small_budget :
  let messages := [HumanMessage (u "a" ++ [LF]); HumanMessage (u "b")] in
  (count_tokens E_gpt2 ∘ turn_line) <$> messages = [Ok 4%nat; Ok 4%nat]
  ∧ build_history_text_with_token_limit E_gpt2 messages MAX_HISTORY_MSGS 8
    = Ok (u "User: a" ++ [LF; LF] ++ u "User: b" ++ [LF])
  ∧ count_tokens E_gpt2 (u "User: a" ++ [LF; LF] ++ u "User: b" ++ [LF])
    = Ok 9%nat.
Proof. repeat split; vm_compute; reflexivity. Qed.

(** With one token per code point and a budget of 30 tokens, the walk from
    the newest message stops at the 20-token line of the second message:
    the first message would fit (9 tokens) and is not taken. *)
Example history_stops_at_first_overflow :
  build_history_text_with_token_limit E_low
    [HumanMessage (u "hi");
     AIMessage (u "a long reply");
     HumanMessage (u "ok");
     AIMessage (u "fine")] 10 30
  = Ok (u "User: ok" ++ [LF] ++ u "Assistant: fine" ++ [LF]).
Proof. vm_compute. reflexivity. Qed.

(** The slice [messages[-max_msgs:]] at [max_msgs = 0] is the whole list. *)
Example last_msgs_zero : last_msgs [1; 2; 3] 0 = [1; 2; 3].
Proof. reflexivity. Qed.

(** ** Lexical candidates are segmented copies *)

Lemma length_join (sep : str) (parts : list str) :
  length (join sep parts)
  = (length (concat parts) + length sep * (length parts - 1))%nat.
Proof.
  induction parts as [|p [|q parts] IH].
  - simpl. lia.
  - simpl. rewrite app_nil_r. lia.
  - change (join sep (p :: q :: parts)) with (p ++ sep ++ join sep (q :: parts)).
    rewrite !length_app, IH. simpl. rewrite !length_app. simpl. nia.
Qed.

Lemma join_differs (parts : list str) :
  (1 < length parts)%nat → join (u " ") parts ≠ concat parts.
Proof.
  intros Hn Heq. apply (f_equal length) in Heq.
  rewrite length_join in Heq. change (length (u " ")) with 1%nat in Heq. lia.
Qed.

Lemma segmented_docs_lookup (E : Env) (texts : list str)
    (metadatas : list (gmap string str)) (i : nat) (t : str)
    (m : gmap string str) :
  texts !! i = Some t → metadatas !! i = Some m →
  segmented_docs E texts metadatas !! i
  = Some {| page_content := join (u " ") (jieba_cut E t); metadata := m |}.
Proof.
  intros Ht Hm. unfold segmented_docs.
  change (map ?f ?l) with (f <$> l).
  rewrite list_lookup_fmap, lookup_zip_with, Ht, Hm. reflexivity.
Qed.

(** C10. Provided the segmenter loses nothing (the tokens of a text,
    concatenated, are the text), the chain is built when a document is
    stored, and its BM25 corpus holds for each stored document its tokens
    joined by single spaces, with the same metadata;
    when there is more than one token this text differs from the stored
    one, and a merge that receives the stored document as a semantic hit
    and its segmented copy as a lexical hit keeps both, at two positions. *)
Theorem C10_segmented_copy_survives_dedup (E : Env) (threshold : pyfloat) :
  (∀ t, concat (jieba_cut E t) = t) →
  ∀ (i : nat) (t : str) (m : gmap string str),
    vectordb_documents E !! i = Some t →
    vectordb_metadatas E !! i = Some m →
    let segmented := join (u " ") (jieba_cut E t) in
    (∃ self,
       QARunnable_init E threshold = Ok self
       ∧ bm25 self !! i
         = Some {| page_content := segmented; metadata := m |})
    ∧ ((1 < length (jieba_cut E t))%nat →
       segmented ≠ t
       ∧ ∀ (vector_docs bm25_docs : list Document) (d : Document),
           d ∈ vector_docs → page_content d = t →
           {| page_content := segmented; metadata := m |} ∈ bm25_docs →
           ∃ j k : nat,
             j ≠ k
             ∧ (page_content <$> merge_docs (vector_docs ++ bm25_docs)) !! j
               = Some t
             ∧ (page_content <$> merge_docs (vector_docs ++ bm25_docs)) !! k
               = Some segmented).
Proof.
  intros Hlossless i t m Ht Hm segmented.
  split.
  { pose proof (segmented_docs_lookup E _ _ i t m Ht Hm) as Hlookup.
    unfold QARunnable_init.
    destruct (segmented_docs E (vectordb_documents E) (vectordb_metadatas E))
      as [|d ds]; [by rewrite lookup_nil in Hlookup|].
    eexists. split; [reflexivity|]. exact Hlookup. }
  intros Htokens.
  assert (Hdiff : segmented ≠ t).
  { unfold segmented. rewrite <- (Hlossless t) at 2. by apply join_differs. }
  split; [done|].
  intros vector_docs bm25_docs d Hd Htext Hlex.
  assert (Hj : t ∈ page_content <$> merge_docs (vector_docs ++ bm25_docs)).
  { rewrite <- Htext. apply merge_docs_covers, elem_of_app. by left. }
  assert (Hk : segmented ∈ page_content <$> merge_docs (vector_docs ++ bm25_docs)).
  { apply (merge_docs_covers _ {| page_content := segmented; metadata := m |}),
      elem_of_app. by right. }
  apply list_elem_of_lookup_1 in Hj as [j Hj].
  apply list_elem_of_lookup_1 in Hk as [k Hk].
  exists j, k. split; [|done]. intros ->. congruence.
Qed.

Lemma sample_cut_lossless (t : str) : concat (sample_cut t) = t.
Proof.
  induction t as [|c t IH]; [done|].
  cbn [sample_cut]. cbv zeta. destruct t as [|c' t']; [done|].
  destruct (sample_cut (c' :: t')) as [|piece pieces]; [done|].
  destruct (_ && _); simpl in *; by rewrite IH.
Qed.

(** C10 on a store of one two-character document, retrieved by both
    signals. *)
Lemma C10_segmented_copy_sample :
  let E := sample_env [law_doc (u "工会")] [law_doc (u "工会")]
                      (λ _, scored_reply "90") in
  let segmented := join (u " ") (jieba_cut E (u "工会")) in
  segmented ≠ u "工会"
  ∧ ∃ j k : nat,
      j ≠ k
      ∧ (page_content <$>
           merge_docs ([law_doc (u "工会")] ++ bm25 (qa_chain_of E)))
          !! j = Some (u "工会")
      ∧ (page_content <$>
           merge_docs ([law_doc (u "工会")] ++ bm25 (qa_chain_of E)))
          !! k = Some segmented.
Proof.
  intros E segmented.
  destruct (C10_segmented_copy_survives_dedup E (Finite 70)
              sample_cut_lossless
              0%nat (u "工会") {[ "source_name" := u "law" ]}
              eq_refl eq_refl) as [(self & Hinit & Hcorpus) Hkept].
  assert (Hq : QARunnable_init E (Finite 70) = Ok (qa_chain_of E))
    by (vm_compute; reflexivity).
  rewrite Hq in Hinit. injection Hinit as <-.
  destruct Hkept as [Hdiff Hboth]; [vm_compute; lia|].
  split; [exact Hdiff|].
  apply (Hboth [law_doc (u "工会")] (bm25 (qa_chain_of E))
           (law_doc (u "工会"))).
  - apply list_elem_of_singleton. reflexivity.
  - reflexivity.
  - eapply list_elem_of_lookup_2. exact Hcorpus.
Defined.

(** ** Worked examples *)

(** A well-formed reply: full-width colon, decimal score, rationale over two
    lines, trailing blanks stripped. *)
Example score_pattern_sample :
  let response := u "x评分：85.5  " ++ [CR; LF; LF] ++ u "理由：  a"
                  ++ [LF] ++ u "b  " in
  (λ m, (float (group m 1), strip (group m 2)))
    <$> re_search score_pattern response
  = Some (Finite (171 # 2), u "a" ++ [LF] ++ u "b").
Proof. vm_compute. reflexivity. Qed.

(** Score and rationale on one line do not match the pattern. *)
Example score_pattern_needs_newline :
  re_search score_pattern (u "评分: 85 理由: x") = None.
Proof. vm_compute. reflexivity. Qed.

(** Semantic results first, a repeated text only once, at its first place. *)
Example merge_docs_sample :
  page_content <$>
    merge_docs ([law_doc (u "a"); law_doc (u "b"); law_doc (u "a")]
                ++ [law_doc (u "c"); law_doc (u "b")])
  = [u "a"; u "b"; u "c"].
Proof. vm_compute. reflexivity. Qed.

(** The sort is stable and FILTERING keeps three: of two candidates scored
    72 the earlier one stays first, the fourth candidate is cut. *)
Example filter_top_sample :
  filter_top (Finite 70) [(Finite 72, u "a", u "r"); (Finite 40, u "b", u "r");
                 (Finite 85, u "c", u "r"); (Finite 72, u "d", u "r");
                 (Finite 70, u "e", u "r")]
  = [(Finite 85, u "c", u "r"); (Finite 72, u "a", u "r");
     (Finite 72, u "d", u "r")].
Proof. vm_compute. reflexivity. Qed.

(** ** What the matcher accepts *)

Section Regex.

Lemma match_lit_app (w s s' : str) : match_lit w s = Some s' → s = w ++ s'.
Proof.
  revert s. induction w as [|c w IH]; intros [|x s]; simpl; try congruence.
  destruct (N.eqb_spec x c) as [->|]; [|done].
  intros Hm. by rewrite (IH s Hm).
Qed.

Lemma match_star_sound (p : N → bool) (s : str) (cs : captures)
    (k : str → captures → option captures) (res : captures) :
  match_star p s cs k = Some res →
  ∃ w s', s = w ++ s' ∧ Forall (λ c, p c = true) w ∧ k s' cs = Some res.
Proof.
  induction s as [|x s IH]; simpl.
  - intros Hk. by exists [], [].
  - destruct (p x) eqn:Hx; [|intros Hk; by exists [], (x :: s)].
    destruct (match_star p s cs k) as [r|] eqn:Hs.
    + intros [= ->]. destruct (IH eq_refl) as (w & s' & -> & Hw & Hk).
      exists (x :: w), s'. split; [done|]. split; [by constructor|done].
    + intros Hk. by exists [], (x :: s).
Qed.

(** A successful match consumes a prefix that the pattern denotes and hands
    the rest to the continuation. *)
Lemma rmatch_sound (r : regex) :
  ∀ (s : str) (cs : captures) (k : str → captures → option captures)
    (res : captures),
    rmatch r s cs k = Some res →
    ∃ w s' cs', s = w ++ s' ∧ matches r w ∧ k s' cs' = Some res.
Proof.
  induction r as [w|p|r1 IH1 r2 IH2|r1 IH1|p|n r1 IH1]; intros s cs k res; simpl.
  - destruct (match_lit w s) as [s'|] eqn:Hw; [|done].
    intros Hk. exists w, s', cs. split; [by apply match_lit_app|].
    split; [constructor|done].
  - destruct s as [|x s]; [done|]. destruct (p x) eqn:Hx; [|done].
    intros Hk. exists [x], s, cs. split; [done|]. split; [by constructor|done].
  - intros (w1 & s1 & cs1 & -> & Hm1 & H2)%IH1.
    apply IH2 in H2 as (w2 & s2 & cs2 & -> & Hm2 & Hk).
    exists (w1 ++ w2), s2, cs2. rewrite <- app_assoc.
    split; [done|]. split; [by constructor|done].
  - destruct (rmatch r1 s cs k) as [r|] eqn:Hr.
    + intros [= ->]. apply IH1 in Hr as (w & s' & cs' & -> & Hm & Hk).
      exists w, s', cs'. split; [done|]. split; [by apply matches_opt|done].
    + intros Hk. exists [], s, cs. split; [done|].
      split; [apply matches_opt_skip|done].
  - intros (w & s' & -> & Hw & Hk)%match_star_sound.
    exists w, s', cs. split; [done|]. split; [by constructor|done].
  - intros (w & s' & cs' & -> & Hm & Hk)%IH1.
    eexists w, s', _. split; [done|]. split; [by constructor|exact Hk].
Qed.

Lemma rmatch_group_sound (n : nat) (r : regex) (s : str) (res : captures) :
  rmatch (Grp n r) s [] (λ _ cs, Some cs) = Some res →
  ∃ post, s = group res n ++ post ∧ matches r (group res n).
Proof.
  cbn [rmatch]. intros Hr.
  apply rmatch_sound in Hr as (w & s' & cs' & -> & Hm & [= <-]).
  exists s'. unfold group. cbn [list_find]. rewrite decide_True by done.
  cbn [fst snd]. by rewrite length_app, Nat.add_sub, take_app_length.
Qed.

(** [re.search] with the whole pattern as group [n]: the group is a piece of
    the text that the pattern denotes. *)
Lemma re_search_group_sound (n : nat) (r : regex) (s : str) (res : captures) :
  re_search (Grp n r) s = Some res →
  ∃ pre post, s = pre ++ group res n ++ post ∧ matches r (group res n).
Proof.
  induction s as [|x s IH]; cbn [re_search].
  - destruct (rmatch (Grp n r) [] [] _) as [cs|] eqn:Hr; [|done].
    intros [= ->]. apply rmatch_group_sound in Hr as (post & Hs & Hm).
    by exists [], post.
  - destruct (rmatch (Grp n r) (x :: s) [] _) as [cs|] eqn:Hr.
    + intros [= ->]. apply rmatch_group_sound in Hr as (post & Hs & Hm).
      by exists [], post.
    + intros (pre & post & -> & Hm)%IH. by exists (x :: pre), post.
Qed.

Lemma re_search_sound (r : regex) (s : str) (res : captures) :
  re_search r s = Some res → ∃ pre w post, s = pre ++ w ++ post ∧ matches r w.
Proof.
  induction s as [|x s IH]; cbn [re_search].
  - destruct (rmatch r [] [] _) as [cs|] eqn:Hr; [|done].
    intros _. apply rmatch_sound in Hr as (w & s' & cs' & Hs & Hm & _).
    by exists [], w, s'.
  - destruct (rmatch r (x :: s) [] _) as [cs|] eqn:Hr.
    + intros _. apply rmatch_sound in Hr as (w & s' & cs' & Hs & Hm & _).
      by exists [], w, s'.
    + intros (pre & w & post & -> & Hm)%IH. by exists (x :: pre), w, post.
Qed.

(** Whatever the scoring pattern matches holds a line break between the
    score and the rationale. *)
Lemma score_pattern_line_break (w : str) :
  matches score_pattern w → ∃ c, c ∈ w ∧ crlf c = true.
Proof.
  unfold score_pattern, Plus. intros Hm.
  repeat match goal with
         | H : matches (Cat _ _) _ |- _ => inversion H; subst; clear H
         end.
  match goal with
  | H : matches (Cls crlf) ?x |- _ => inversion H as [|? c Hc| | | | |]; subst
  end.
  exists c. split; [|done].
  rewrite !elem_of_app. do 5 right. left. left. by apply list_elem_of_singleton.
Qed.

End Regex.

(** ** More on the relevance scorer *)

(** X1. Scoring a batch makes exactly one call of the language model per
    passage, in input order, each with the scoring template bound to the
    question and that passage, and leaves the session store as it was. *)
Theorem X1_rerank_one_call_per_passage
    (E : Env) (question : str) (documents : list str) (w : world) :
  ∃ (results : list scored) (w' : world),
    get_rerank_scores E question documents w = (Ok results, w')
    ∧ calls_between w w' = map (rerank_call question) documents
    ∧ histories w' = histories w.
Proof.
  destruct (get_rerank_scores_run E question documents w)
    as (results & w' & Hrun & _ & _ & Hlog & Hh).
  exists results, w'. split; [done|]. split; [|done].
  by apply calls_between_app.
Qed.

Lemma round_half_even_nonneg (a b : Z) :
  0 <= a → 0 < b → 0 <= round_half_even a b.
Proof.
  intros Ha Hb. unfold round_half_even.
  pose proof (Z.div_pos a b Ha Hb).
  repeat case_match; lia.
Qed.

(** Rounding to a double keeps the sign. *)
Lemma binary64_nonneg (num : N) (den : positive) :
  (Finite 0 <= binary64 num den)%F.
Proof.
  unfold binary64. destruct (Z.of_N num =? 0); [apply fle_refl|].
  cbv zeta.
  match goal with
  | |- context [Z.max ?a (-1074)] => generalize (Z.max a (-1074))
  end.
  intros e. destruct (_ || _); [done|].
  cbn [fle]. rewrite Qred_correct. unfold Qle. cbn [Qnum Qden].
  assert (0 <= round_half_even (Z.of_N num * 2 ^ Z.max 0 (- e))
                               (Z.pos den * 2 ^ Z.max 0 e)).
  { apply round_half_even_nonneg.
    - apply Z.mul_nonneg_nonneg; [lia|]. apply Z.pow_nonneg. lia.
    - apply Z.mul_pos_pos; [lia|]. apply Z.pow_pos_nonneg; lia. }
  assert (0 <= 2 ^ Z.max 0 e) by (apply Z.pow_nonneg; lia).
  nia.
Qed.

Lemma float_nonneg (s : str) : (Finite 0 <= float s)%F.
Proof.
  unfold float. destruct (float_go s 0%N 1%positive false) as [num den].
  apply binary64_nonneg.
Qed.

(** [float] rounds as Python does: the nearest double, and [inf] beyond
    the range of doubles. *)
Example float_rounds :
  float (u "69.99999999999999999") = Finite 70
  ∧ float (u "0.1") = Finite (3602879701896397 # 36028797018963968)
  ∧ float (u "1" ++ replicate 400 48%N) = Inf
  ∧ float (u "85.5") = Finite (171 # 2).
Proof. repeat split; vm_compute; reflexivity. Qed.

(** X2. No score that the scorer returns is negative: a parsed score is
    [float] of an unsigned decimal, a double that is not negative or
    [inf]; every other entry scores 0.0. *)
Theorem X2_rerank_scores_not_negative
    (E : Env) (question : str) (documents : list str) (w : world) :
  ∃ (results : list scored) (w' : world),
    get_rerank_scores E question documents w = (Ok results, w')
    ∧ Forall (λ it, (Finite 0 <= score it)%F) results.
Proof.
  destruct (get_rerank_scores_run E question documents w)
    as (results & w' & Hrun & Hlen & Hent & _).
  exists results, w'. split; [done|].
  apply Forall_lookup. intros i it Hit.
  assert (is_Some (documents !! i)) as [doc Hdoc].
  { apply lookup_lt_is_Some. rewrite <- Hlen. by eapply lookup_lt_Some. }
  destruct (Hent i doc Hdoc) as (it' & Hit' & _ & Hraise & Hbad & Hgood).
  assert (it' = it) as -> by congruence.
  destruct (scoring_call E question w i doc) as [response|e].
  - destruct (re_search score_pattern response) as [m|] eqn:Hm.
    + rewrite (Hgood response m eq_refl Hm). apply float_nonneg.
    + by rewrite (Hbad response eq_refl Hm).
  - by rewrite (Hraise e eq_refl).
Qed.

(** X3. A reply without a line break (no CR, no LF) is never recognized,
    whatever else it holds: the passage gets 0.0 and [default_reason]. *)
Theorem X3_reply_without_line_break_scores_zero
    (E : Env) (question : str) (documents : list str) (w : world)
    (i : nat) (doc response : str) :
  documents !! i = Some doc →
  scoring_call E question w i doc = Ok response →
  Forall (λ c, crlf c = false) response →
  ∃ (results : list scored) (w' : world),
    get_rerank_scores E question documents w = (Ok results, w')
    ∧ results !! i = Some (Finite 0, doc, default_reason).
Proof.
  intros Hdoc Hcall Hflat.
  destruct (get_rerank_scores_run E question documents w)
    as (results & w' & Hrun & _ & Hent & _).
  exists results, w'. split; [done|].
  destruct (Hent i doc Hdoc) as (it & -> & _ & _ & Hbad & _).
  f_equal. apply (Hbad response Hcall).
  destruct (re_search score_pattern response) as [m|] eqn:Hm; [|done].
  apply re_search_sound in Hm as (pre & mid & post & -> & Hmatch).
  apply score_pattern_line_break in Hmatch as (c & Hc & Hbreak).
  rewrite Forall_forall in Hflat.
  rewrite (Hflat c) in Hbreak; [done|].
  rewrite !elem_of_app. auto.
Qed.

(** X3 on the reply ["no idea"] to the second passage. *)
Lemma X3_reply_without_line_break_sample :
  ∃ results w',
    get_rerank_scores E_faulty (u "q") [u "a"; u "b"; u "c"] w0
      = (Ok results, w')
    ∧ results !! 1%nat = Some (Finite 0, u "b", default_reason).
Proof.
  apply (X3_reply_without_line_break_scores_zero E_faulty (u "q")
           [u "a"; u "b"; u "c"] w0 1 (u "b") (u "no idea")).
  - reflexivity.
  - reflexivity.
  - vm_compute. repeat constructor.
Defined.

(** ** More on the merge and on the metadata map *)

Lemma merge_docs_NoDup_id (docs : list Document) :
  NoDup (page_content <$> docs) → merge_docs docs = docs.
Proof.
  induction docs as [|d docs IH] using rev_ind; [done|].
  rewrite fmap_app. intros (Hdocs & Hfresh & _)%NoDup_app.
  rewrite merge_docs_snoc, (IH Hdocs). case_decide as Hin; [|done].
  exfalso. apply (Hfresh _ Hin). simpl. by apply list_elem_of_singleton.
Qed.

(** X4. Merging is idempotent: a merged candidate list merged again is
    itself. *)
Theorem X4_merge_docs_idempotent (docs : list Document) :
  merge_docs (merge_docs docs) = merge_docs docs.
Proof. apply merge_docs_NoDup_id, merge_docs_NoDup. Qed.

Lemma content2metadata_snoc (docs : list Document) (d : Document) :
  content2metadata (docs ++ [d])
  = <[ page_content d := metadata d ]> (content2metadata docs).
Proof. unfold content2metadata. by rewrite foldl_snoc. Qed.

Lemma content2metadata_None (docs : list Document) (t : str) :
  t ∉ page_content <$> docs → content2metadata docs !! t = None.
Proof.
  induction docs as [|d docs IH] using rev_ind; [done|].
  rewrite fmap_app, not_elem_of_app, content2metadata_snoc.
  intros [Hdocs Hd]. rewrite lookup_insert_ne; [by apply IH|].
  intros <-. apply Hd. simpl. by apply list_elem_of_singleton.
Qed.

Lemma content2metadata_Some (docs : list Document) (d : Document) :
  NoDup (page_content <$> docs) → d ∈ docs →
  content2metadata docs !! page_content d = Some (metadata d).
Proof.
  induction docs as [|x docs IH] using rev_ind; [by intros _ ?%elem_of_nil|].
  rewrite fmap_app. intros (Hdocs & Hfresh & _)%NoDup_app.
  rewrite elem_of_app, list_elem_of_singleton, content2metadata_snoc.
  intros [Hd | ->]; [|by rewrite lookup_insert_eq].
  rewrite lookup_insert_ne; [by apply IH|].
  intros Heq. apply (Hfresh (page_content d)).
  - by apply list_elem_of_fmap_2.
  - rewrite <- Heq. simpl. by apply list_elem_of_singleton.
Qed.

(** X5. The metadata that context assembly looks up for a text is the
    metadata of the first retrieved document with that text (semantic
    results come first), and nothing for a text that was not retrieved. *)
Theorem X5_metadata_of_first_occurrence (docs : list Document) (t : str) :
  content2metadata (merge_docs docs) !! t
  = (λ jd, metadata jd.2) <$> list_find (λ x, page_content x = t) docs.
Proof.
  destruct (list_find (λ x, page_content x = t) docs) as [[j d]|] eqn:Hfind.
  - simpl. apply list_find_Some in Hfind as Hd. destruct Hd as (Hj & Ht & _).
    assert (Hin : t ∈ page_content <$> merge_docs docs).
    { rewrite <- Ht. eapply merge_docs_covers, list_elem_of_lookup_2, Hj. }
    apply list_elem_of_fmap in Hin as (d' & Ht' & Hd').
    destruct (merge_docs_first docs d' Hd') as [j' Hfirst].
    rewrite <- Ht' in Hfirst. rewrite Hfind in Hfirst. injection Hfirst as _ <-.
    rewrite Ht'. apply content2metadata_Some; [apply merge_docs_NoDup|done].
  - simpl. apply content2metadata_None. intros (d & -> & Hd)%list_elem_of_fmap.
    apply list_find_None in Hfind. rewrite Forall_forall in Hfind.
    apply (Hfind d); [|done].
    eapply elem_of_sublist; [done|apply merge_docs_sublist].
Qed.

(** ** More on FILTERING *)

Lemma insert_desc_class (q : pyfloat) (x : scored) (l : list scored) :
  List.filter (λ y, feqb (score y) q) (insert_desc x l)
  = List.filter (λ y, feqb (score y) q) (x :: l).
Proof.
  induction l as [|y l IH]; [done|]. cbn [insert_desc].
  destruct (fleb (score y) (score x)) eqn:Hyx; [done|].
  cbn [List.filter] in *. rewrite IH.
  destruct (feqb (score x) q) eqn:Hx; [|done].
  destruct (feqb (score y) q) eqn:Hy; [|done].
  apply andb_true_iff in Hx as [_ Hqx]. apply andb_true_iff in Hy as [Hyq _].
  apply fleb_iff in Hqx, Hyq.
  pose proof (fle_trans _ _ _ Hyq Hqx) as Hle.
  apply fleb_iff in Hle. congruence.
Qed.

(** X6. The descending sort is stable: the candidates of any one score
    stand after sorting in the order they had before. *)
Theorem X6_sorted_desc_stable (q : pyfloat) (l : list scored) :
  List.filter (λ x, feqb (score x) q) (sorted_desc l)
  = List.filter (λ x, feqb (score x) q) l.
Proof.
  induction l as [|x l IH]; [done|].
  cbn [sorted_desc foldr]. fold (sorted_desc l).
  rewrite insert_desc_class. cbn [List.filter]. by rewrite IH.
Qed.

(** X7. FILTERING keeps the best: a scored candidate that reached the
    threshold is either kept, or three candidates are kept and each of
    them scores at least as much. *)
Theorem X7_filter_top_keeps_best (threshold : pyfloat) (l : list scored)
    (it : scored) :
  it ∈ l → (threshold <= score it)%F →
  it ∈ filter_top threshold l
  ∨ (length (filter_top threshold l) = 3%nat
     ∧ ∀ k, k ∈ filter_top threshold l → (score it <= score k)%F).
Proof.
  intros Hin Hle. unfold filter_top.
  set (passed := sorted_desc
                   (List.filter (λ item, fleb threshold (score item)) l)).
  assert (Hp : it ∈ passed).
  { unfold passed. rewrite sorted_desc_perm. apply list_elem_of_In, filter_In.
    split; [by apply list_elem_of_In | by apply fleb_iff]. }
  apply list_elem_of_lookup_1 in Hp as [i Hi].
  destruct (decide (i < 3)%nat) as [Hlt|Hge].
  - left. apply elem_of_take. eauto.
  - right. split.
    + apply lookup_lt_Some in Hi. rewrite length_take. lia.
    + intros k (j & Hj & Hj3)%elem_of_take.
      apply (StronglySorted_lookup_desc passed j i k it);
        [apply sorted_desc_sorted | lia | done | done].
Qed.

(** X7 on five candidates, of which the one scored 70 is cut. *)
Lemma X7_filter_top_keeps_best_sample :
  let l := [(Finite 72, u "a", u "r"); (Finite 40, u "b", u "r");
            (Finite 85, u "c", u "r"); (Finite 72, u "d", u "r");
            (Finite 70, u "e", u "r")] in
  (Finite 70, u "e", u "r") ∈ filter_top (Finite 70) l
  ∨ (length (filter_top (Finite 70) l) = 3%nat
     ∧ ∀ k, k ∈ filter_top (Finite 70) l → (Finite 70 <= score k)%F).
Proof.
  intros l.
  apply (X7_filter_top_keeps_best (Finite 70) l (Finite 70, u "e", u "r")).
  - unfold l. rewrite !elem_of_cons. auto 10.
  - apply fle_refl.
Defined.

(** X8. FILTERING leaves nothing exactly when no scored candidate reaches
    the threshold; the threshold itself is enough to pass. *)
Theorem X8_filter_top_empty_iff (threshold : pyfloat) (l : list scored) :
  filter_top threshold l = [] ↔ Forall (λ x, (score x < threshold)%F) l.
Proof.
  split.
  - intros Hnil%filter_top_nil. eapply Forall_impl; [exact Hnil|].
    intros x Hx. by apply flt_not_le.
  - intros Hall. destruct (filter_top threshold l) as [|x k] eqn:Hf; [done|].
    assert (Hx : x ∈ filter_top threshold l) by (rewrite Hf; left).
    apply filter_top_elem in Hx as [Hx Hle].
    rewrite Forall_forall in Hall. specialize (Hall x Hx).
    by apply flt_not_le in Hall.
Qed.

(** ** More on context assembly *)

Lemma assemble_full (max_len : Z) (c2m : gmap str (gmap string str))
    (filtered : list scored) :
  ∀ (context : str) (selected_docs : list SelectedDoc),
  ∃ n : nat,
    let out := assemble max_len c2m filtered context selected_docs in
    out.2 = selected_docs ++ (selected_of c2m <$> take n filtered)
    ∧ out.1 = context
              ++ concat ((λ it, text it ++ [LF; LF]) <$> take n filtered)
    ∧ (∀ it, filtered !! n = Some it → len out.1 + len (text it) > max_len)
    ∧ (n ≠ 0%nat → len out.1 <= max_len + 2).
Proof.
  induction filtered as [|[[sc doc_text] why] rest IH];
    intros context selected_docs.
  - exists 0%nat. simpl. rewrite !app_nil_r. repeat split; done.
  - simpl. destruct (Z.gtb_spec (len context + len doc_text) max_len)
      as [Hguard|Hguard].
    + exists 0%nat. simpl. rewrite !app_nil_r. repeat split; try done.
      intros it [= <-]. unfold text. simpl. lia.
    + destruct (IH (context ++ doc_text ++ [LF; LF])
                   (selected_docs ++
                      [{| content := doc_text; doc_score := sc; reason := why;
                          source_name :=
                            metadata_get (c2m !! doc_text) "source_name";
                          source_text :=
                            metadata_get (c2m !! doc_text) "source_text" |}]))
        as (n & Hsel & Hctx & Hstop & Hbound).
      exists (S n). cbv zeta in *. simpl.
      split; [rewrite Hsel; by rewrite <- app_assoc|].
      split; [rewrite Hctx; by rewrite <- !app_assoc|].
      split; [exact Hstop|].
      intros _. destruct n as [|n]; [|by apply Hbound].
      rewrite Hctx. simpl. rewrite app_nil_r, !len_app.
      change (len [LF; LF]) with 2. lia.
Qed.

(** X9. Context assembly selects a prefix of the filtered candidates, each
    with its whole text, score and rationale; the context is the selected
    contents, each followed by a blank line; the candidate after the prefix
    is the first whose text does not fit after the context, and nothing
    after it is looked at; the context is at most two code points over the
    budget. *)
Theorem X9_assemble_prefix_and_bound (max_len : Z)
    (c2m : gmap str (gmap string str)) (filtered : list scored) :
  let out := assemble max_len c2m filtered [] [] in
  ∃ n : nat,
    out.2 = selected_of c2m <$> take n filtered
    ∧ out.1 = concat ((λ d, content d ++ [LF; LF]) <$> out.2)
    ∧ (∀ it, filtered !! n = Some it → len out.1 + len (text it) > max_len)
    ∧ len out.1 <= Z.max 0 (max_len + 2).
Proof.
  destruct (assemble_full max_len c2m filtered [] [])
    as (n & Hsel & Hctx & Hstop & Hbound).
  cbv zeta in *. simpl in Hsel, Hctx. exists n.
  split; [done|]. split; [|split; [done|]].
  - rewrite Hctx, Hsel, <- list_fmap_compose. done.
  - destruct n as [|n]; [|specialize (Hbound ltac:(done)); lia].
    rewrite Hctx, take_0. simpl. unfold len. simpl. lia.
Qed.

(** ** More on [invoke] *)

(** X10. An error of either index reaches the caller of [invoke] as it is,
    before any call of the language model and with the state unchanged. *)
Theorem X10_retrieval_error_propagates
    (E : Env) (self : QARunnable) (inputs : gmap string str) (w : world)
    (e : exn) :
  similarity_search E (query_of inputs) 15 = Raise e
  ∨ (∃ vector_docs,
       similarity_search E (query_of inputs) 15 = Ok vector_docs
       ∧ bm25_retrieve E (bm25 self) (query_of inputs) = Raise e) →
  invoke E self inputs w = (Raise e, w).
Proof.
  unfold invoke. cbv zeta. fold (query_of inputs).
  intros [Hsem | (vector_docs & Hsem & Hlex)].
  - unfold bind at 1, lift. by rewrite Hsem.
  - unfold bind at 1, lift. rewrite Hsem. unfold bind at 1. by rewrite Hlex.
Qed.

Lemma X10_retrieval_error_sample :
  invoke E_down (qa_chain_of E_down) {[ "query" := u "q" ]} w0
  = (Raise (ExternalError (u "index unreachable")), w0).
Proof.
  apply X10_retrieval_error_propagates. left. reflexivity.
Defined.

(** Both retrievals returned: the scoring calls, then one generation call
    whose outcome is the outcome of [invoke]. *)
Lemma invoke_run (E : Env) (self : QARunnable) (inputs : gmap string str)
    (vector_docs hits : list Document) (w : world) :
  similarity_search E (query_of inputs) 15 = Ok vector_docs →
  bm25_retrieve E (bm25 self) (query_of inputs) = Ok hits →
  ∃ (reranked : list scored) (w1 : world) (final : llm_call)
    (mk : str → PipelineResult),
    get_rerank_scores E (query_of inputs)
      (map page_content (merge_docs (vector_docs ++ take 5 hits))) w
      = (Ok reranked, w1)
    ∧ map text reranked
      = map page_content (merge_docs (vector_docs ++ take 5 hits))
    ∧ llm_log w1 = llm_log w ++
        map (rerank_call (query_of inputs))
            (map page_content (merge_docs (vector_docs ++ take 5 hits)))
    ∧ histories w1 = histories w
    ∧ invoke E self inputs w
      = (match llm_generate E (length (llm_log w1)) (call_prompt final)
                 (call_inputs final) with
         | Ok a => Ok (mk a)
         | Raise e => Raise e
         end,
         {| llm_log := llm_log w1 ++ [final]; histories := histories w1 |})
    ∧ call_prompt final ≠ rerank_prompt
    ∧ ((filter_top (threshold self) reranked = []
        ∧ ∃ reason,
            mk = λ a, {| result := a; source_documents := [];
                         top_score := Finite 0; used_knowledge := false;
                         no_use_reason := Some reason |})
       ∨ (filter_top (threshold self) reranked ≠ []
          ∧ mk = λ a,
              let assembled :=
                assemble (max_context_length self)
                  (content2metadata
                     (merge_docs (vector_docs ++ take 5 hits)))
                  (filter_top (threshold self) reranked) [] [] in
              {| result := a; source_documents := assembled.2;
                 top_score := match assembled.2 with
                              | d :: _ => doc_score d
                              | [] => Finite 0
                              end;
                 used_knowledge := true; no_use_reason := None |})).
Proof.
  intros Hsem Hlex.
  destruct (get_rerank_scores_run E (query_of inputs)
              (map page_content (merge_docs (vector_docs ++ take 5 hits))) w)
    as (reranked & w1 & Hrun & Hlen & Hent & Hlog & Hh).
  pose proof (entries_texts E (query_of inputs) _ _ w Hlen Hent) as Htexts.
  exists reranked, w1.
  destruct (filter_top (threshold self) reranked) as [|it0 its] eqn:Hf.
  - destruct (decide (merge_docs (vector_docs ++ take 5 hits) = []))
      as [Hm|Hm].
    + assert (w1 = w) as ->.
      { rewrite Hm in Hrun. by injection Hrun as _ <-. }
      eexists {| call_prompt := fallback_prompt; call_inputs := _ |}, _.
      do 4 (split; [done|]). split.
      { rewrite (invoke_no_documents E self inputs vector_docs hits
                   Hsem Hlex w Hm).
        apply chain_run_log. }
      split; [done|]. left. split; [done|]. by eexists.
    + eexists {| call_prompt := fallback_prompt; call_inputs := _ |}, _.
      do 4 (split; [done|]). split.
      { rewrite (invoke_no_relevant E self inputs vector_docs hits Hsem Hlex
                   w w1 reranked Hm Hrun Hf).
        apply chain_run_log. }
      split; [done|]. left. split; [done|]. by eexists.
  - assert (Hm : merge_docs (vector_docs ++ take 5 hits) ≠ []).
    { intros Hm. rewrite Hm in Hlen. destruct reranked; [|done].
      by vm_compute in Hf. }
    assert (Hnn : filter_top (threshold self) reranked ≠ [])
      by (by rewrite Hf).
    eexists {| call_prompt := legal_prompt; call_inputs := _ |}, _.
    do 4 (split; [done|]). split.
    { rewrite (invoke_answering E self inputs vector_docs hits Hsem Hlex
                 w w1 reranked Hm Hrun Hnn).
      cbv zeta. apply chain_run_log. }
    split; [done|]. right. split; [done|]. rewrite <- Hf. reflexivity.
Qed.

(** X11. When both retrievals return, [invoke] makes one scoring call per
    merged candidate, in order, and then exactly one generation call, with
    the no-knowledge or the knowledge-grounded template; this holds also
    when the generation call raises. [invoke] never writes to the session
    store. *)
Theorem X11_invoke_call_sequence
    (E : Env) (self : QARunnable) (inputs : gmap string str)
    (vector_docs hits : list Document) (w : world) :
  similarity_search E (query_of inputs) 15 = Ok vector_docs →
  bm25_retrieve E (bm25 self) (query_of inputs) = Ok hits →
  ∃ (o : outcome PipelineResult) (w' : world) (final : llm_call),
    invoke E self inputs w = (o, w')
    ∧ calls_between w w'
      = map (rerank_call (query_of inputs))
            (map page_content (merge_docs (vector_docs ++ take 5 hits)))
        ++ [final]
    ∧ (call_prompt final = fallback_prompt
       ∨ call_prompt final = legal_prompt)
    ∧ histories w' = histories w.
Proof.
  intros Hsem Hlex.
  destruct (invoke_run E self inputs vector_docs hits w Hsem Hlex)
    as (reranked & w1 & final & mk & _ & _ & Hlog & Hh & Hinv & Hp & _).
  eexists _, _, final. split; [exact Hinv|].
  split; [by apply calls_between_snoc|].
  split; [|done]. destruct (call_prompt final); auto. done.
Qed.

Lemma X11_invoke_call_sequence_sample :
  ∃ o w' final,
    invoke E_three (qa_chain_of E_three) {[ "query" := u "q" ]} w0 = (o, w')
    ∧ calls_between w0 w'
      = map (rerank_call (query_of {[ "query" := u "q" ]}))
            (map page_content
               (merge_docs
                  ([law_doc (u "a"); law_doc (u "b"); law_doc (u "a")]
                   ++ take 5 [law_doc (u "a"); law_doc (u "b");
                              law_doc (u "c")])))
        ++ [final]
    ∧ (call_prompt final = fallback_prompt
       ∨ call_prompt final = legal_prompt)
    ∧ histories w' = histories w0.
Proof.
  apply (X11_invoke_call_sequence E_three (qa_chain_of E_three)
           {[ "query" := u "q" ]});
    [reflexivity | vm_compute; reflexivity].
Defined.

(** X12. A failing scorer never fails the request: when both retrievals
    return and the generation call (the call after the scoring calls)
    returns for the two generation templates, [invoke] returns a result,
    whatever the scoring calls did. *)
Theorem X12_invoke_returns_despite_scoring_failures
    (E : Env) (self : QARunnable) (inputs : gmap string str)
    (vector_docs hits : list Document) (w : world) :
  similarity_search E (query_of inputs) 15 = Ok vector_docs →
  bm25_retrieve E (bm25 self) (query_of inputs) = Ok hits →
  (∀ prompt bound, prompt ≠ rerank_prompt →
     ∃ a, llm_generate E
            (length (llm_log w)
             + length (merge_docs (vector_docs ++ take 5 hits)))%nat
            prompt bound = Ok a) →
  ∃ r w', invoke E self inputs w = (Ok r, w').
Proof.
  intros Hsem Hlex Hgen.
  destruct (invoke_run E self inputs vector_docs hits w Hsem Hlex)
    as (reranked & w1 & final & mk & _ & _ & Hlog & _ & Hinv & Hp & _).
  destruct (Hgen (call_prompt final) (call_inputs final) Hp) as [a Ha].
  rewrite Hlog, length_app, !length_map, Ha in Hinv. eauto.
Qed.

Lemma X12_invoke_returns_sample :
  ∃ r w', invoke E_faulty (qa_chain_of E_faulty) {[ "query" := u "q" ]} w0
          = (Ok r, w').
Proof.
  apply (X12_invoke_returns_despite_scoring_failures E_faulty
           (qa_chain_of E_faulty) {[ "query" := u "q" ]}
           [law_doc (u "a"); law_doc (u "b"); law_doc (u "c")]
           [law_doc (u "a"); law_doc (u "b"); law_doc (u "c")] w0);
    [reflexivity | vm_compute; reflexivity |].
  intros prompt bound Hp. exists (u "answer"). by destruct prompt.
Defined.

Lemma invoke_Ok_retrieved (E : Env) (self : QARunnable)
    (inputs : gmap string str) (w w' : world) (r : PipelineResult) :
  invoke E self inputs w = (Ok r, w') →
  ∃ vector_docs hits,
    similarity_search E (query_of inputs) 15 = Ok vector_docs
    ∧ bm25_retrieve E (bm25 self) (query_of inputs) = Ok hits.
Proof.
  unfold invoke. cbv zeta. fold (query_of inputs).
  unfold bind at 1, lift.
  destruct (similarity_search E (query_of inputs) 15) as [v|e]; [|done].
  unfold bind at 1.
  destruct (bm25_retrieve E (bm25 self) (query_of inputs)) as [h|e]; [|done].
  intros _. by exists v, h.
Qed.

(** What [invoke] returns is either a fallback result or built from the
    selected prefix of the filtered candidates. *)
Lemma invoke_result (E : Env) (self : QARunnable) (inputs : gmap string str)
    (vector_docs hits : list Document) (w w' : world) (r : PipelineResult) :
  similarity_search E (query_of inputs) 15 = Ok vector_docs →
  bm25_retrieve E (bm25 self) (query_of inputs) = Ok hits →
  invoke E self inputs w = (Ok r, w') →
  ∃ (reranked : list scored) (n : nat),
    map text reranked
      = map page_content (merge_docs (vector_docs ++ take 5 hits))
    ∧ source_documents r
      = selected_of (content2metadata (merge_docs (vector_docs ++ take 5 hits)))
          <$> take n (filter_top (threshold self) reranked)
    ∧ top_score r = match source_documents r with
                    | d :: _ => doc_score d
                    | [] => Finite 0
                    end
    ∧ ((used_knowledge r = false ∧ is_Some (no_use_reason r)
        ∧ source_documents r = [])
       ∨ (used_knowledge r = true ∧ no_use_reason r = None)).
Proof.
  intros Hsem Hlex Hok.
  destruct (invoke_run E self inputs vector_docs hits w Hsem Hlex)
    as (reranked & w1 & final & mk & _ & Htexts & _ & _ & Hinv & _ & Hmk).
  rewrite Hinv in Hok.
  destruct (llm_generate E _ _ _) as [a|e]; [|done].
  injection Hok as <- _. exists reranked.
  destruct Hmk as [(Hnil & reason & ->) | (Hnn & ->)].
  - exists 0%nat. simpl. split; [done|]. split; [done|]. split; [done|].
    left. eauto.
  - destruct (assemble_full (max_context_length self)
                (content2metadata (merge_docs (vector_docs ++ take 5 hits)))
                (filter_top (threshold self) reranked) [] [])
      as (n & Hsel & _).
    cbv zeta in *. simpl in Hsel. exists n. cbn [source_documents top_score
      used_knowledge no_use_reason].
    split; [done|]. split; [exact Hsel|]. split; [done|]. right. done.
Qed.

(** X13. Every result that [invoke] returns is well formed: at most three
    source documents, each scoring at least the threshold, in order of
    non-increasing score; [top_score] is the score of the first source
    document, and 0.0 when there is none; [used_knowledge] is true exactly
    when no [no_use_reason] is given, and a result that did not use
    knowledge has no source documents. *)
Theorem X13_invoke_result_well_formed
    (E : Env) (self : QARunnable) (inputs : gmap string str) (w w' : world)
    (r : PipelineResult) :
  invoke E self inputs w = (Ok r, w') →
  (length (source_documents r) <= 3)%nat
  ∧ Forall (λ d, (threshold self <= doc_score d)%F) (source_documents r)
  ∧ (∀ (i j : nat) a b, (i <= j)%nat →
       source_documents r !! i = Some a → source_documents r !! j = Some b →
       (doc_score b <= doc_score a)%F)
  ∧ top_score r = match source_documents r with
                  | d :: _ => doc_score d
                  | [] => Finite 0
                  end
  ∧ (used_knowledge r = true ↔ no_use_reason r = None)
  ∧ (used_knowledge r = false → source_documents r = []).
Proof.
  intros Hok.
  destruct (invoke_Ok_retrieved E self inputs w w' r Hok)
    as (vector_docs & hits & Hsem & Hlex).
  destruct (invoke_result E self inputs vector_docs hits w w' r Hsem Hlex Hok)
    as (reranked & n & _ & Hsrc & Htop & Hflag).
  split; [|split; [|split; [|split; [done|]]]].
  - rewrite Hsrc, length_fmap, length_take.
    pose proof (filter_top_length (threshold self) reranked). lia.
  - rewrite Hsrc. apply Forall_fmap, Forall_forall.
    intros it Hit%elem_of_take_1. by apply filter_top_elem in Hit as [_ Hle].
  - intros i j a b Hij. rewrite Hsrc, !list_lookup_fmap.
    intros (ita & Ha%lookup_take_Some & ->)%fmap_Some
           (itb & Hb%lookup_take_Some & ->)%fmap_Some.
    destruct Ha as [Ha _], Hb as [Hb _].
    exact (StronglySorted_lookup_desc _ i j ita itb
             (filter_top_sorted _ _) Hij Ha Hb).
  - destruct Hflag as [(Hu & [reason Hr] & Hs) | (Hu & Hr)];
      rewrite Hu, Hr; split; [done | done | done | congruence].
Qed.

Lemma X13_invoke_result_sample :
  let r := {| result := u "answer";
              source_documents :=
                [{| content := u "a"; doc_score := Finite 85; reason := u "ok";
                    source_name := u "law"; source_text := [] |};
                 {| content := u "c"; doc_score := Finite 72; reason := u "ok";
                    source_name := u "law"; source_text := [] |}];
              top_score := Finite 85; used_knowledge := true;
              no_use_reason := None |} in
  (length (source_documents r) <= 3)%nat
  ∧ Forall (λ d, (Finite 70 <= doc_score d)%F) (source_documents r).
Proof.
  intros r.
  destruct (X13_invoke_result_well_formed E_three (qa_chain_of E_three)
              {[ "query" := u "q" ]} w0
              (invoke E_three (qa_chain_of E_three)
                 {[ "query" := u "q" ]} w0).2 r)
    as (Hlen & Hth & _); [vm_compute; reflexivity|].
  split; [exact Hlen | exact Hth].
Defined.

(** X14. Every source document of a result cites the first retrieved
    document with its text (semantic results before lexical ones): its
    [source_name] and [source_text] are read from that document's
    metadata, and are empty when the metadata lacks them. *)
Theorem X14_sources_cite_first_retrieved
    (E : Env) (self : QARunnable) (inputs : gmap string str)
    (vector_docs hits : list Document) (w w' : world) (r : PipelineResult)
    (d : SelectedDoc) :
  similarity_search E (query_of inputs) 15 = Ok vector_docs →
  bm25_retrieve E (bm25 self) (query_of inputs) = Ok hits →
  invoke E self inputs w = (Ok r, w') →
  d ∈ source_documents r →
  ∃ (j : nat) (c : Document),
    list_find (λ x, page_content x = content d) (vector_docs ++ take 5 hits)
      = Some (j, c)
    ∧ source_name d = metadata_get (Some (metadata c)) "source_name"
    ∧ source_text d = metadata_get (Some (metadata c)) "source_text".
Proof.
  intros Hsem Hlex Hok Hd.
  destruct (invoke_result E self inputs vector_docs hits w w' r Hsem Hlex Hok)
    as (reranked & n & Htexts & Hsrc & _).
  rewrite Hsrc in Hd. apply list_elem_of_fmap in Hd as (it & -> & Hit).
  apply elem_of_take_1, filter_top_elem in Hit as [Hit _].
  assert (Hin : text it ∈ page_content <$>
                  merge_docs (vector_docs ++ take 5 hits)).
  { change (page_content <$> ?l) with (map page_content l).
    rewrite <- Htexts. by apply (list_elem_of_fmap_2 text). }
  apply list_elem_of_fmap in Hin as (c & Hc & Hcin).
  destruct (merge_docs_first _ c Hcin) as [j Hfind].
  exists j, c. unfold selected_of. simpl. rewrite Hc.
  split; [done|].
  by rewrite (content2metadata_Some _ c (merge_docs_NoDup _) Hcin).
Qed.

Lemma X14_sources_cite_sample :
  ∃ (j : nat) (c : Document),
    list_find (λ x, page_content x = u "a")
      ([law_doc (u "a"); law_doc (u "b"); law_doc (u "a")]
       ++ take 5 [law_doc (u "a"); law_doc (u "b"); law_doc (u "c")])
      = Some (j, c)
    ∧ u "law" = metadata_get (Some (metadata c)) "source_name"
    ∧ [] = metadata_get (Some (metadata c)) "source_text".
Proof.
  apply (X14_sources_cite_first_retrieved E_three (qa_chain_of E_three)
           {[ "query" := u "q" ]}
           [law_doc (u "a"); law_doc (u "b"); law_doc (u "a")]
           [law_doc (u "a"); law_doc (u "b"); law_doc (u "c")] w0
           (invoke E_three (qa_chain_of E_three) {[ "query" := u "q" ]} w0).2
           {| result := u "answer";
              source_documents :=
                [{| content := u "a"; doc_score := Finite 85; reason := u "ok";
                    source_name := u "law"; source_text := [] |};
                 {| content := u "c"; doc_score := Finite 72; reason := u "ok";
                    source_name := u "law"; source_text := [] |}];
              top_score := Finite 85; used_knowledge := true;
              no_use_reason := None |}
           {| content := u "a"; doc_score := Finite 85; reason := u "ok";
              source_name := u "law"; source_text := [] |}).
  - reflexivity.
  - vm_compute. reflexivity.
  - vm_compute. reflexivity.
  - left.
Defined.

(** X24. An error of the generation call is not caught: when both
    retrievals return and the call after the scoring calls raises for the
    generation templates, [invoke] raises that same error. *)
Theorem X24_generation_error_propagates
    (E : Env) (self : QARunnable) (inputs : gmap string str)
    (vector_docs hits : list Document) (w : world) (e : exn) :
  similarity_search E (query_of inputs) 15 = Ok vector_docs →
  bm25_retrieve E (bm25 self) (query_of inputs) = Ok hits →
  (∀ prompt bound, prompt ≠ rerank_prompt →
     llm_generate E
       (length (llm_log w)
        + length (merge_docs (vector_docs ++ take 5 hits)))%nat
       prompt bound = Raise e) →
  ∃ w', invoke E self inputs w = (Raise e, w').
Proof.
  intros Hsem Hlex Hgen.
  destruct (invoke_run E self inputs vector_docs hits w Hsem Hlex)
    as (reranked & w1 & final & mk & _ & _ & Hlog & _ & Hinv & Hp & _).
  rewrite Hlog, length_app, !length_map,
    (Hgen (call_prompt final) (call_inputs final) Hp) in Hinv. eauto.
Qed.

Lemma X24_generation_error_sample :
  ∃ w', invoke E_mute (qa_chain_of E_mute) {[ "query" := u "q" ]} w0
        = (Raise (ExternalError (u "model unreachable")), w').
Proof.
  apply (X24_generation_error_propagates E_mute (qa_chain_of E_mute)
           {[ "query" := u "q" ]} [law_doc (u "a")] [law_doc (u "a")] w0);
    [reflexivity | vm_compute; reflexivity |].
  intros prompt bound Hp. by destruct prompt.
Defined.

(** ** More on the history compressor *)

(** X15. When the tokenizer returns on the lines of the whole window and
    their counts fit the token budget together, the compressor returns all
    of them, oldest first. *)
Theorem X15_history_whole_window_when_it_fits
    (E : Env) (tokens : BaseMessage → nat) (messages : list BaseMessage)
    (max_msgs max_tokens : Z) :
  counted E tokens (last_msgs messages max_msgs) →
  lines_tokens tokens (last_msgs messages max_msgs) <= max_tokens →
  build_history_text_with_token_limit E messages max_msgs max_tokens
  = Ok (concat (turn_line <$> last_msgs messages max_msgs)).
Proof.
  intros Hc Hfits. unfold build_history_text_with_token_limit.
  destruct (history_loop_run E tokens max_tokens
              (reverse (last_msgs messages max_msgs))
              (counted_reverse E tokens _ Hc) [] 0)
    as (taken & rest & Hsplit & Hrun & _ & Hstop).
  rewrite <- (lines_tokens_reverse tokens), Hsplit, lines_tokens_app in Hfits.
  destruct rest as [|msg rest].
  - rewrite app_nil_r in Hsplit.
    by rewrite Hrun, app_nil_r, <- Hsplit, reverse_involutive.
  - specialize (Hstop msg rest eq_refl). rewrite lines_tokens_cons in Hfits.
    pose proof (lines_tokens_nonneg tokens rest). lia.
Qed.

Lemma X15_history_whole_window_sample :
  build_history_text_with_token_limit E_low
    [HumanMessage (u "hi"); AIMessage (u "hello")] MAX_HISTORY_MSGS MAX_TOKENS
  = Ok (concat (turn_line <$>
                  last_msgs [HumanMessage (u "hi"); AIMessage (u "hello")]
                    MAX_HISTORY_MSGS)).
Proof.
  apply (X15_history_whole_window_when_it_fits E_low
           (λ msg, length (turn_line msg))).
  - intros msg Hin. vm_compute in Hin.
    apply elem_of_cons in Hin as [->|Hin]; [vm_compute; reflexivity|].
    apply elem_of_cons in Hin as [->|Hin]; [vm_compute; reflexivity|].
    by apply elem_of_nil in Hin.
  - vm_compute. discriminate.
Defined.



(** With the limit at zero all three messages are returned. *)
Example history_zero_limit_returns_all :
  build_history_text_with_token_limit E_low
    [HumanMessage (u "hi"); AIMessage (u "hello"); HumanMessage (u "ok")]
    0 MAX_TOKENS
  = Ok (u "User: hi" ++ [LF] ++ u "Assistant: hello" ++ [LF]
        ++ u "User: ok" ++ [LF]).
Proof. vm_compute. reflexivity. Qed.

(** X25. An exception of the tokenizer is not caught: when it raises on
    the line of a message of the window, and the lines of the newer
    messages were counted and fit the budget, so that the walk reaches that
    line, the compressor raises the same exception and returns no text. *)
Theorem X25_history_tokenizer_error_propagates
    (E : Env) (tokens : BaseMessage → nat) (messages : list BaseMessage)
    (max_msgs max_tokens : Z) (older : list BaseMessage) (bad : BaseMessage)
    (newer : list BaseMessage) (e : exn) :
  last_msgs messages max_msgs = older ++ bad :: newer →
  (∀ msg, msg ∈ newer → count_tokens E (turn_line msg) = Ok (tokens msg)) →
  lines_tokens tokens newer <= max_tokens →
  count_tokens E (turn_line bad) = Raise e →
  build_history_text_with_token_limit E messages max_msgs max_tokens
  = Raise e.
Proof.
  intros Hw Hc Hfits Hbad. unfold build_history_text_with_token_limit.
  rewrite Hw, reverse_app, reverse_cons, <- app_assoc. cbn [app].
  apply (history_loop_raise E tokens).
  - by apply counted_reverse.
  - exact Hbad.
  - rewrite lines_tokens_reverse. lia.
Qed.

(** X25 on a history whose older turn holds the special token. *)
Lemma X25_history_tokenizer_error_sample :
  build_history_text_with_token_limit E_low
    [HumanMessage (u "<|endoftext|>"); AIMessage (u "ok")]
    MAX_HISTORY_MSGS MAX_TOKENS
  = Raise (ValueError (u "disallowed special token")).
Proof.
  apply (X25_history_tokenizer_error_propagates E_low
           (λ msg, length (turn_line msg))
           [HumanMessage (u "<|endoftext|>"); AIMessage (u "ok")]
           MAX_HISTORY_MSGS MAX_TOKENS
           [] (HumanMessage (u "<|endoftext|>")) [AIMessage (u "ok")]).
  - reflexivity.
  - intros msg Hin.
    apply elem_of_cons in Hin as [->|Hin]; [vm_compute; reflexivity|].
    by apply elem_of_nil in Hin.
  - vm_compute. discriminate.
  - vm_compute. reflexivity.
Defined.

(** ** More on the entry points *)

Section Service.
Context (E : Env) (qa_chain : QARunnable).

Lemma session_add_message (sid sid' : str) (m : BaseMessage) (w : world) :
  session (add_message sid m w).2 sid'
  = if decide (sid' = sid) then session w sid ++ [m] else session w sid'.
Proof.
  unfold session, add_message. simpl. rewrite lookup_insert.
  destruct (decide (sid' = sid)) as [->|]; by case_decide.
Qed.

Lemma record_messages_run (sid : str) (msgs : list Message) :
  ∀ (last_user_question : option str) (w : world),
  ∃ w',
    record_messages sid msgs last_user_question w
    = (Ok match last (filter (λ m, role m = u "user") msgs) with
          | Some m => Some (msg_content m)
          | None => last_user_question
          end, w')
    ∧ llm_log w' = llm_log w
    ∧ ∀ sid', session w' sid'
              = if decide (sid' = sid)
                then session w sid ++ omap stored_message msgs
                else session w sid'.
Proof.
  induction msgs as [|msg msgs IH]; intros last_user_question w.
  - exists w. simpl. split; [done|]. split; [done|].
    intros sid'. case_decide; [subst; by rewrite app_nil_r|done].
  - cbn [record_messages omap list_omap]. unfold stored_message at 1.
    destruct (decide (role msg = u "user")) as [Huser|Huser].
    + rewrite filter_cons_True by done. rewrite last_cons.
      unfold bind at 1.
      destruct (IH (Some (msg_content msg))
                   (add_message sid (HumanMessage (msg_content msg)) w).2)
        as (w' & Hrun & Hlog & Hsess).
      exists w'. split.
      { change (add_message sid (HumanMessage (msg_content msg)) w)
          with (Ok (), (add_message sid (HumanMessage (msg_content msg)) w).2).
        cbv iota beta. rewrite Hrun.
        by destruct (last (filter _ msgs)). }
      split; [done|]. intros sid'. rewrite Hsess, !session_add_message.
      case_decide; [|done]. rewrite decide_True by done.
      by rewrite <- app_assoc.
    + rewrite filter_cons_False by done.
      destruct (decide (role msg = u "assistant")) as [Hassist|Hother].
      * unfold bind at 1.
        destruct (IH last_user_question
                     (add_message sid (AIMessage (msg_content msg)) w).2)
          as (w' & Hrun & Hlog & Hsess).
        exists w'. split.
        { change (add_message sid (AIMessage (msg_content msg)) w)
            with (Ok (), (add_message sid (AIMessage (msg_content msg)) w).2).
          cbv iota beta. exact Hrun. }
        split; [done|]. intros sid'. rewrite Hsess, !session_add_message.
        case_decide; [|done]. rewrite decide_True by done.
        by rewrite <- app_assoc.
      * apply IH.
Qed.

(** X17. Storing the turns of a request appends, to the history of the
    request's session only and in the order of the request, a human
    message for each user turn and an assistant message for each assistant
    turn; a turn of any other role is dropped without an error. The active
    question is the content of the last user turn. No call of the language
    model is made. *)
Theorem X17_record_messages_effect (sid : str) (msgs : list Message)
    (w : world) :
  ∃ w',
    record_messages sid msgs None w
    = (Ok (msg_content <$> last (filter (λ m, role m = u "user") msgs)), w')
    ∧ llm_log w' = llm_log w
    ∧ ∀ sid', session w' sid'
              = if decide (sid' = sid)
                then session w sid ++ omap stored_message msgs
                else session w sid'.
Proof.
  destruct (record_messages_run sid msgs None w) as (w' & Hrun & Hrest).
  exists w'. split; [|done]. rewrite Hrun. reflexivity.
Qed.

Lemma chat_try_or_service (req : ChatRequest) (w : world) :
  chat_try E qa_chain req w = chat_service E qa_chain req w
  ∨ ∃ w', chat_try E qa_chain req w
          = (Raise (HTTPException 400 (u "No user question provided.")), w')
          ∧ chat_service E qa_chain req w
            = (Raise (ValueError (u "No user question provided.")), w').
Proof.
  unfold chat_try, chat_service, bind.
  destruct (record_messages_run (session_id req) (messages req) None w)
    as (w' & -> & _).
  destruct (missing _); [right; by exists w' | by left].
Qed.

Lemma chat_outcome (req : ChatRequest) (w : world) :
  chat E qa_chain req w
  = match chat_try E qa_chain req w with
    | (Ok resp, w') => (Ok resp, w')
    | (Raise e, w') =>
        (Raise (HTTPException 500 (u "Internal error: " ++ exn_str e)), w')
    end.
Proof.
  unfold chat, bind, try_except.
  by destruct (chat_try E qa_chain req w) as [[resp|e] w'].
Qed.

(** X18. The HTTP handler and the service function do the same work: the
    handler returns a response exactly when the service function returns
    it, both leave the same state behind, and whatever makes the handler
    fail reaches its caller as an [HTTPException] with status 500. *)
Theorem X18_chat_agrees_with_chat_service (req : ChatRequest) (w : world) :
  (∀ resp w', chat E qa_chain req w = (Ok resp, w')
              ↔ chat_service E qa_chain req w = (Ok resp, w'))
  ∧ (chat E qa_chain req w).2 = (chat_service E qa_chain req w).2
  ∧ (∀ e w', chat E qa_chain req w = (Raise e, w') →
             ∃ detail, e = HTTPException 500 detail).
Proof.
  rewrite !chat_outcome.
  destruct (chat_try_or_service req w) as [-> | (w1 & -> & ->)].
  - destruct (chat_service E qa_chain req w) as [[resp|e] w1].
    + split; [intros; reflexivity|]. split; [reflexivity|]. intros e w' [=].
    + split; [intros resp w'; split; intros [=]|].
      split; [reflexivity|]. intros e' w' [= <- _]. by eexists.
  - split; [intros resp w'; split; intros [=]|].
    split; [reflexivity|]. intros e' w' [= <- _]. by eexists.
Qed.

(** X19. When the batch has no user turn, or its last user turn has empty
    content, [chat_service] raises [ValueError]; by then the turns of the
    batch are already in the session's history, and no call of the
    language model was made. *)
Theorem X19_missing_question_after_turns_stored
    (req : ChatRequest) (w : world) :
  missing (msg_content <$>
             last (filter (λ m, role m = u "user") (messages req))) = true →
  ∃ w',
    chat_service E qa_chain req w
    = (Raise (ValueError (u "No user question provided.")), w')
    ∧ llm_log w' = llm_log w
    ∧ session w' (session_id req)
      = session w (session_id req) ++ omap stored_message (messages req).
Proof.
  intros Hmissing.
  destruct (record_messages_run (session_id req) (messages req) None w)
    as (w' & Hrun & Hlog & Hsess).
  exists w'. unfold chat_service, bind at 1. rewrite Hrun.
  replace (match last (filter _ (messages req)) with
           | Some m => Some (msg_content m)
           | None => None
           end)
    with (msg_content <$> last (filter (λ m, role m = u "user") (messages req)))
    by (by destruct (last _)).
  rewrite Hmissing. split; [done|]. split; [done|].
  by rewrite Hsess, decide_True.
Qed.

(** X20. With a question, [chat_service] compresses the history of the
    session in the state in which the turns of the batch are stored, the
    active question among them.  When the tokenizer raises on one of its
    lines, the error is passed on in that state: the chain is not asked and
    no answer is stored.  Otherwise the chain is asked with the question
    and the compressed history; when it returns, the answer is appended to
    the session's history as an assistant message and the response carries
    the fields of the result; when it raises, the error is passed on and no
    answer is stored. *)
Theorem X20_chat_service_with_question
    (req : ChatRequest) (w : world) (question : str) :
  msg_content <$> last (filter (λ m, role m = u "user") (messages req))
    = Some question →
  question ≠ [] →
  let w1 := (record_messages (session_id req) (messages req) None w).2 in
    llm_log w1 = llm_log w
    ∧ session w1 (session_id req)
      = session w (session_id req) ++ omap stored_message (messages req)
    ∧ chat_service E qa_chain req w
      = match build_history_text_with_token_limit E
                (session w (session_id req)
                 ++ omap stored_message (messages req))
                MAX_HISTORY_MSGS MAX_TOKENS with
        | Raise e => (Raise e, w1)
        | Ok history_text =>
            match invoke E qa_chain
                    {[ "query" := question;
                       "chat_history" := history_text ]} w1 with
            | (Ok r, w2) =>
                (Ok {| answer := result r;
                       resp_used_knowledge := used_knowledge r;
                       resp_top_score := Some (top_score r);
                       resp_no_use_reason := no_use_reason r;
                       resp_source_documents := source_documents r |},
                 (add_message (session_id req) (AIMessage (result r)) w2).2)
            | (Raise e, w2) => (Raise e, w2)
            end
        end.
Proof.
  intros Hq Hne.
  destruct (record_messages_run (session_id req) (messages req) None w)
    as (w1 & Hrun & Hlog & Hsess).
  rewrite Hrun. cbn [snd]. split; [done|].
  specialize (Hsess (session_id req)). rewrite decide_True in Hsess by done.
  split; [done|].
  unfold chat_service, bind at 1. rewrite Hrun.
  replace (match last (filter _ (messages req)) with
           | Some m => Some (msg_content m)
           | None => None
           end)
    with (msg_content <$> last (filter (λ m, role m = u "user") (messages req)))
    by (by destruct (last _)).
  rewrite Hq. destruct question as [|c question]; [done|]. cbn [missing default].
  unfold answer_question, bind at 1, history_messages.
  fold (session w1 (session_id req)). rewrite Hsess.
  unfold bind at 1, lift.
  destruct (build_history_text_with_token_limit E _ _ _)
    as [history_text|e]; [|done].
  unfold bind at 1.
  destruct (invoke E qa_chain _ w1) as [[r|e] w2]; [|done].
  unfold bind, add_message, ret. reflexivity.
Qed.

End Service.

(** X19 on a batch whose only user turn is empty. *)
Lemma X19_missing_question_sample :
  ∃ w',
    chat_service E_low (qa_chain_of E_low)
      {| session_id := u "s";
         messages := [{| role := u "user"; msg_content := [] |}] |} w0
    = (Raise (ValueError (u "No user question provided.")), w')
    ∧ llm_log w' = llm_log w0
    ∧ session w' (u "s") = [HumanMessage []].
Proof.
  destruct (X19_missing_question_after_turns_stored E_low (qa_chain_of E_low)
              {| session_id := u "s";
                 messages := [{| role := u "user"; msg_content := [] |}] |} w0)
    as (w' & Hrun & Hlog & Hsess); [vm_compute; reflexivity|].
  exists w'. split; [exact Hrun|]. split; [exact Hlog|].
  etrans; [exact Hsess|]. vm_compute. reflexivity.
Defined.

(** X20 on one user turn whose candidates all score below the threshold. *)
Lemma X20_chat_service_sample :
  ∃ resp w',
    chat_service E_low (qa_chain_of E_low)
      {| session_id := u "s";
         messages := [{| role := u "user"; msg_content := u "q" |}] |} w0
    = (Ok resp, w')
    ∧ answer resp = u "answer"
    ∧ session w' (u "s") = [HumanMessage (u "q"); AIMessage (u "answer")].
Proof.
  destruct (X20_chat_service_with_question E_low (qa_chain_of E_low)
              {| session_id := u "s";
                 messages := [{| role := u "user"; msg_content := u "q" |}] |}
              w0 (u "q"))
    as (_ & _ & Hrun); [vm_compute; reflexivity | vm_compute; discriminate |].
  rewrite Hrun.
  exists {| answer := u "answer"; resp_used_knowledge := false;
            resp_top_score := Some (Finite 0);
            resp_no_use_reason := Some no_relevant_reason;
            resp_source_documents := [] |}.
  eexists. split; [vm_compute; reflexivity|].
  split; vm_compute; reflexivity.
Defined.

(** A user turn that holds the special token: the tokenizer raises while
    the history is compressed, the service function raises its
    [ValueError] with the turn stored and no call of the language model,
    and the handler answers 500. *)
Example chat_service_special_token :
  let req := {| session_id := u "s";
                messages := [{| role := u "user";
                                msg_content := u "<|endoftext|>" |}] |} in
  let w' := {| llm_log := [];
               histories :=
                 {[ u "s" := [HumanMessage (u "<|endoftext|>")] ]} |} in
  chat_service E_low (qa_chain_of E_low) req w0
    = (Raise (ValueError (u "disallowed special token")), w')
  ∧ chat E_low (qa_chain_of E_low) req w0
    = (Raise (HTTPException 500
                (u "Internal error: disallowed special token")), w').
Proof. split; vm_compute; reflexivity. Qed.

(** ** Ingestion: scripts/build_vector_db.py *)

Section Ingestion.

Lemma lstrip_suffix (s : str) :
  ∃ pre, s = pre ++ lstrip s ∧ Forall (λ c, isspace c = true) pre.
Proof.
  induction s as [|c s (pre & Hs & Hpre)]; [by exists []|].
  cbn [lstrip]. destruct (isspace c) eqn:Hc; [|by exists []].
  exists (c :: pre). split; [by rewrite Hs at 1|by constructor].
Qed.

Lemma lstrip_head (s t : str) (c : N) :
  lstrip s = c :: t → isspace c = false.
Proof.
  induction s as [|x s IH]; [done|]. cbn [lstrip].
  destruct (isspace x) eqn:Hx; [done|]. by intros [= <- _].
Qed.

(** [strip] takes away blanks at both ends and nothing else. *)
Lemma strip_infix (s : str) :
  ∃ pre post,
    s = pre ++ strip s ++ post
    ∧ Forall (λ c, isspace c = true) pre
    ∧ Forall (λ c, isspace c = true) post.
Proof.
  unfold strip.
  destruct (lstrip_suffix s) as (pre & Hs & Hpre).
  destruct (lstrip_suffix (reverse (lstrip s))) as (post & Hr & Hpost).
  exists pre, (reverse post). split; [|split; [done|]].
  - rewrite <- reverse_app, <- Hr, reverse_involutive. done.
  - by apply Forall_reverse.
Qed.

Lemma strip_last (s : str) (c : N) :
  last (strip s) = Some c → isspace c = false.
Proof.
  unfold strip. destruct (lstrip (reverse (lstrip s))) as [|x t] eqn:Hl;
    [done|].
  rewrite reverse_cons, last_snoc. intros [= <-]. by eapply lstrip_head.
Qed.

Lemma strip_head (s : str) (c : N) :
  head (strip s) = Some c → isspace c = false.
Proof.
  intros Hhead.
  destruct (lstrip_suffix (reverse (lstrip s))) as (post & Hr & _).
  apply (f_equal reverse) in Hr.
  rewrite reverse_involutive, reverse_app in Hr. fold (strip s) in Hr.
  destruct (strip s) as [|x e]; [done|]. injection Hhead as ->.
  simpl in Hr. by eapply lstrip_head.
Qed.

Lemma split_lines_no_LF (s : str) : Forall (λ p, LF ∉ p) (split_lines s).
Proof.
  induction s as [|c s IH]; simpl.
  - repeat constructor. by intros ?%elem_of_nil.
  - destruct (N.eqb_spec c LF) as [->|Hc].
    + constructor; [by intros ?%elem_of_nil|done].
    + destruct (split_lines s) as [|p ps].
      { constructor; [|done]. intros ?%list_elem_of_singleton. congruence. }
      inversion IH as [|? ? Hp Hps]; subst. constructor; [|done].
      rewrite elem_of_cons. intros [?|?]; [congruence|done].
Qed.

(** X21. The entries cut out of a file's text are never empty, hold no
    line feed, and neither begin nor end with white space. *)
Theorem X21_entries_are_clean_lines (full_text : str) :
  Forall (λ e, (e ≠ [])
               ∧ (LF ∉ e)
               ∧ (∀ c, head e = Some c → isspace c = false)
               ∧ (∀ c, last e = Some c → isspace c = false))
         (entries full_text).
Proof.
  unfold entries. apply Forall_fmap, Forall_forall.
  intros para Hpara%list_elem_of_In%filter_In. destruct Hpara as [Hin Hkeep].
  apply list_elem_of_In in Hin. simpl.
  split; [|split; [|split]].
  - intros Hnil. by rewrite Hnil, bool_decide_eq_true_2 in Hkeep.
  - intros Hlf.
    pose proof (split_lines_no_LF (strip full_text)) as Hno.
    rewrite Forall_forall in Hno. apply (Hno para Hin).
    destruct (strip_infix para) as (pre & post & Hp & _).
    rewrite Hp, !elem_of_app. auto.
  - apply strip_head.
  - apply strip_last.
Qed.

(** X22. [extract_source_text] returns either nothing or a piece of the
    text of the form 第…条 with at least one numeral in between, each a
    Chinese numeral of the class or an ASCII digit. *)
Theorem X22_extract_source_text_shape (text : str) :
  extract_source_text text = []
  ∨ ∃ pre digits post,
      text = pre ++ extract_source_text text ++ post
      ∧ extract_source_text text = u "第" ++ digits ++ u "条"
      ∧ digits ≠ []
      ∧ Forall (λ c, numeral c = true) digits.
Proof.
  unfold extract_source_text, article_pattern.
  destruct (re_search _ text) as [m|] eqn:Hm; [right|by left].
  apply re_search_group_sound in Hm as (pre & post & Htext & Hmatch).
  unfold Plus in Hmatch.
  repeat match goal with
         | H : matches (Cat _ _) _ |- _ => inversion H; subst; clear H
         end.
  repeat match goal with
         | H : matches (Lit _) _ |- _ => inversion H; subst; clear H
         | H : matches (Cls _) _ |- _ => inversion H; subst; clear H
         | H : matches (Star _) _ |- _ => inversion H; subst; clear H
         end.
  match goal with
  | H : _ = group m 0, Hc : numeral ?c = true, Hw : Forall _ ?w |- _ =>
      rewrite <- H; exists pre, ([c] ++ w), post;
      split; [done|]; split; [done|]; split; [done|]; by constructor
  end.
Qed.

Lemma load_txt_documents_concat (files : list txt_file) :
  load_txt_documents_with_metadata files = concat (file_documents <$> files).
Proof.
  unfold load_txt_documents_with_metadata.
  induction files as [|f files IH] using rev_ind; [done|].
  rewrite foldl_snoc, IH, fmap_app, concat_app. simpl. by rewrite app_nil_r.
Qed.

(** X23. Every ingested document comes from a readable file and one of
    its entries: its text is that entry, and its metadata give the file's
    path, the file's short name as [source_name], and the article number
    found in the entry itself as [source_text], which is how context
    assembly reads them back. A file that cannot be decoded contributes
    no document. *)
Theorem X23_ingested_document_metadata (files : list txt_file)
    (d : Document) :
  d ∈ load_txt_documents_with_metadata files →
  ∃ f full_text,
    f ∈ files
    ∧ read_text f = Some full_text
    ∧ page_content d ∈ entries full_text
    ∧ metadata d !! "source_file" = Some (full_path f)
    ∧ metadata_get (Some (metadata d)) "source_name" = file_name f
    ∧ metadata_get (Some (metadata d)) "source_text"
      = extract_source_text (page_content d).
Proof.
  rewrite load_txt_documents_concat.
  intros (docs & Hdocs & Hd)%list_elem_of_In%in_concat.
  apply list_elem_of_In, list_elem_of_fmap in Hdocs as (f & -> & Hf).
  apply list_elem_of_In in Hd.
  unfold file_documents in Hd.
  destruct (read_text f) as [full_text|] eqn:Hread; [|by apply elem_of_nil in Hd].
  apply list_elem_of_fmap in Hd as (entry & -> & Hentry).
  exists f, full_text. do 3 (split; [done|]). cbn [page_content metadata].
  split; [by rewrite lookup_insert_eq|].
  unfold metadata_get. rewrite decide_False by apply insert_non_empty.
  split.
  - by rewrite lookup_insert_ne, lookup_insert_eq.
  - by rewrite !lookup_insert_ne, lookup_singleton_eq.
Qed.

End Ingestion.

Lemma X23_ingested_document_sample :
  let f := {| full_path := u "laws/union.txt"; file_name := u "union";
              read_text := Some (u "  第三条 工会" ++ [LF; LF] ++ u "附则 ") |} in
  let d := {| page_content := u "第三条 工会";
              metadata := {[ "source_file" := u "laws/union.txt";
                             "source_name" := u "union";
                             "source_text" := u "第三条" ]} |} in
  ∃ f' full_text,
    f' ∈ [f; {| full_path := u "laws/bad.txt"; file_name := u "bad";
                read_text := None |}]
    ∧ read_text f' = Some full_text
    ∧ page_content d ∈ entries full_text
    ∧ metadata d !! "source_file" = Some (full_path f')
    ∧ metadata_get (Some (metadata d)) "source_name" = file_name f'
    ∧ metadata_get (Some (metadata d)) "source_text"
      = extract_source_text (page_content d).
Proof.
  intros f d. apply X23_ingested_document_metadata.
  vm_compute. left.
Defined.
